(** * VisionAssist AR: face identity pipeline, descriptor store, route
    safety score and notification bridge.

    A shallow embedding of the Express backend (the face endpoints and
    [calculateSafetyScore]), of the React face-recognition controller
    (load / register / delete and the detection interval) and of
    [addNotification], with the properties the design document states
    about them. *)

From Stdlib Require Import ZArith QArith List String Bool Lia.
From Stdlib Require Import Reals Qreals Lra.
From Stdlib Require Import DecimalString Ascii Sorted Permutation.
Import ListNotations.

Local Open Scope Z_scope.

(* ------------------------------------------------------------------ *)
(** ** Route safety score *)

Module Scorer.

(** The part of a Directions route that [calculateSafetyScore] reads:
    [route.legs[i].duration.value], a whole number of seconds. *)
Record leg := { duration_value : Z }.
Record route := { legs : list leg }.

(** [a < b] on the rationals, as a boolean. *)
Definition Qlt_bool (a b : Q) : bool := negb (Qle_bool b a).

(** [leg.duration.value / 60] *)
Definition durationMinutes (l : leg) : Q := inject_Z (duration_value l) / 60.

(** The score before the final clamp:
    [let score = 75; if (m < 15) score += 10; if (m > 45) score -= 10]. *)
Definition rawScore (l : leg) : Z :=
  let score := 75 in
  let score := if Qlt_bool (durationMinutes l) 15 then score + 10 else score in
  let score := if Qlt_bool 45 (durationMinutes l) then score - 10 else score in
  score.

(** [calculateSafetyScore(route)].  Reading [route.legs[0].duration] of a
    route without legs raises a TypeError: [None]. *)
Definition calculateSafetyScore (r : route) : option Z :=
  match nth_error (legs r) 0 with
  | None => None
  | Some l => Some (Z.max 50 (Z.min 95 (rawScore l)))
  end.

(** The sum of the legs' durations, in seconds. *)
Definition totalDuration (r : route) : Z :=
  fold_right (fun l acc => duration_value l + acc) 0 (legs r).

(** The score as the design document words it, from a duration in
    seconds: base 75, +10 below 15 minutes, -10 above 45 minutes,
    clamped to [50, 95]. *)
Definition score_spec (seconds : Z) : Z :=
  let base := 75 in
  let bonus := if seconds <? 15 * 60 then 10 else 0 in
  let malus := if 45 * 60 <? seconds then 10 else 0 in
  Z.max 50 (Z.min 95 (base + bonus - malus)).

End Scorer.

(* ------------------------------------------------------------------ *)
(** ** JavaScript values *)

Module Js.
Local Open Scope string_scope.

(** A parsed JSON value; a number is the rational its literal denotes. *)
#[local] Unset Elimination Schemes.
Inductive json :=
| JNull
| JBool (b : bool)
| JNum (q : Q)
| JStr (s : string)
| JArr (items : list json)
| JObj (fields : list (string * json)).
#[local] Set Elimination Schemes.

(** JavaScript's ToBoolean on the values of a type: what [if (x)], [!x]
    and [x || y] test. *)
Class JsValue (A : Type) := truthy : A -> bool.

#[export] Instance json_value : JsValue json := fun v =>
  match v with
  | JNull => false
  | JBool b => b
  | JNum q => negb (Qeq_bool q 0)
  | JStr s => negb (String.eqb s "")
  | JArr _ => true
  | JObj _ => true
  end.

(** Only the empty string is falsy. *)
#[export] Instance string_value : JsValue string := fun s => negb (String.eqb s "").

(** Every array is an object, hence truthy, the empty one included. *)
#[export] Instance array_value {A : Type} : JsValue (list A) := fun _ => true.

(** A property that may be absent is [option]: [undefined] is falsy. *)
Definition truthy_field {A : Type} `{JsValue A} (o : option A) : bool :=
  match o with
  | None => false
  | Some a => truthy a
  end.

(** [x || d] for a property that may be absent. *)
Definition orElse {A : Type} `{JsValue A} (o : option A) (d : A) : A :=
  match o with
  | Some a => if truthy a then a else d
  | None => d
  end.

(** [x || null] *)
Definition orNull {A : Type} `{JsValue A} (o : option A) : option A :=
  match o with
  | Some a => if truthy a then Some a else None
  | None => None
  end.

(** [Number.prototype.toString()] on an integer: its decimal digits. *)
Definition toString (z : Z) : string := NilZero.string_of_int (Z.to_int z).

End Js.

(* ------------------------------------------------------------------ *)
(** ** Descriptor store: the face endpoints of the Express server *)

Module Store.
Import Js.
Local Open Scope string_scope.

Section Endpoints.

(** The handlers never look inside a name or a descriptor: they test its
    truthiness and pass it on.  [Name] and [Desc] are the types of the
    two payloads ([json] for an arbitrary request body, [string] and an
    array of numbers for the bodies the controller sends). *)
Context {Name Desc : Type} `{JsValue Name} `{JsValue Desc}.

(** A stored face; [timestamp] is in milliseconds since the epoch. *)
Record face := {
  id : string;
  name : Name;
  faceDescriptor : Desc;
  userId : string;
  imageUrl : option string;
  timestamp : Z
}.

(** [req.body] of POST /api/faces/register. *)
Record registerBody := {
  b_name : option Name;
  b_faceDescriptor : option Desc;
  b_userId : option string;
  b_imageUrl : option string
}.

(** What [new Face({...})] is given. *)
Record faceFields := {
  f_name : Name;
  f_faceDescriptor : Desc;
  f_userId : string;
  f_imageUrl : option string
}.

(** An entry of GET /api/faces: [{id, name, timestamp, imageUrl}]. *)
Record faceEntry := {
  e_id : string;
  e_name : Name;
  e_timestamp : Z;
  e_imageUrl : option string
}.

(** An entry of GET /api/faces/descriptors: [{id, name, descriptor}]. *)
Record descriptorEntry := {
  d_id : string;
  d_name : Name;
  d_descriptor : Desc
}.

(** The Mongoose model [Face], as far as the handlers call it.  A call
    either raises (left, the error's message) or returns.  [Coll] is
    the state of the collection. *)
Class Driver (Coll : Type) := {
  (** [new Face(fields).save()] at clock reading [now] *)
  save : faceFields -> Z -> Coll -> string + (Coll * face);
  (** [Face.find(query)], the query being [{userId}] or [{}] *)
  find : option string -> Coll -> string + list face;
  (** [Face.find(query).select('-faceDescriptor').sort({timestamp: -1})] *)
  findNewestFirst : option string -> Coll -> string + list faceEntry;
  (** [Face.findByIdAndDelete(id)] *)
  findByIdAndDelete : string -> Coll -> string + Coll
}.

Context {Coll : Type} `{Driver Coll}.

(** The server's state: [mongoose.connection.readyState], the
    collection behind [Face] and the module variable [inMemoryFaces]. *)
Record server := {
  readyState : Z;
  collection : Coll;
  inMemoryFaces : list face
}.

Definition setCollection (s : server) (c : Coll) : server :=
  {| readyState := readyState s; collection := c; inMemoryFaces := inMemoryFaces s |}.

Definition setInMemoryFaces (s : server) (l : list face) : server :=
  {| readyState := readyState s; collection := collection s; inMemoryFaces := l |}.

(** A JSON response: one constructor per success body, and [Failure]
    for [res.status(code).json({success: false, error})]. *)
Inductive response :=
| Registered (message : string) (rid : string) (rname : Name) (rtimestamp : Z)
| FaceList (faces : list faceEntry)
| DescriptorList (faces : list descriptorEntry)
| Deleted (message : string)
| Failure (code : Z) (error : string).

(** The HTTP status: [res.json] alone answers 200. *)
Definition status (r : response) : Z :=
  match r with
  | Failure code _ => code
  | _ => 200
  end.

(** The [success] property of the body. *)
Definition success (r : response) : bool :=
  match r with
  | Failure _ _ => false
  | _ => true
  end.

(** The [faces] of a body that has them. *)
Definition listed (r : response) : list faceEntry :=
  match r with
  | FaceList faces => faces
  | _ => []
  end.

(** [userId ? { userId } : {}] and [userId ? filter : all], on
    [req.query.userId] *)
Definition queryOf (quser : option string) : option string := orNull quser.

Definition filterByUser (quser : option string) (l : list face) : list face :=
  match queryOf quser with
  | Some u => filter (fun f => String.eqb (userId f) u) l
  | None => l
  end.

Definition entryOf (f : face) : faceEntry :=
  {| e_id := id f; e_name := name f; e_timestamp := timestamp f; e_imageUrl := imageUrl f |}.

Definition descriptorOf (f : face) : descriptorEntry :=
  {| d_id := id f; d_name := name f; d_descriptor := faceDescriptor f |}.

(** POST /api/faces/register.  [now] is the clock reading of the run
    ([Date.now()] and [new Date()]).  The guard is
    [if (!name || !faceDescriptor) return 400]. *)
Definition postRegister (now : Z) (body : registerBody) (s : server) : server * response :=
  match b_name body, b_faceDescriptor body with
  | Some n, Some d =>
      if negb (truthy n) || negb (truthy d)
      then (s, Failure 400 "Name and face descriptor are required")
      else
        if (readyState s =? 1)%Z then
          match save {| f_name := n; f_faceDescriptor := d;
                        f_userId := orElse (b_userId body) "default_user";
                        f_imageUrl := orNull (b_imageUrl body) |} now (collection s) with
          | inr (c, newFace) =>
              (setCollection s c,
               Registered "Face registered successfully" (id newFace) (name newFace) (timestamp newFace))
          | inl e => (s, Failure 500 e)
          end
        else
          let newFace := {| id := toString now; name := n; faceDescriptor := d;
                            userId := orElse (b_userId body) "default_user";
                            imageUrl := orNull (b_imageUrl body);
                            timestamp := now |} in
          (setInMemoryFaces s (inMemoryFaces s ++ [newFace])%list,
           Registered "Face registered successfully (in-memory)" (id newFace) (name newFace) (timestamp newFace))
  | _, _ => (s, Failure 400 "Name and face descriptor are required")
  end.

(** GET /api/faces *)
Definition getFaces (quser : option string) (s : server) : server * response :=
  if (readyState s =? 1)%Z then
    match findNewestFirst (queryOf quser) (collection s) with
    | inr faces => (s, FaceList faces)
    | inl e => (s, Failure 500 e)
    end
  else (s, FaceList (map entryOf (filterByUser quser (inMemoryFaces s)))).

(** GET /api/faces/descriptors *)
Definition getDescriptors (quser : option string) (s : server) : server * response :=
  if (readyState s =? 1)%Z then
    match find (queryOf quser) (collection s) with
    | inr faces => (s, DescriptorList (map descriptorOf faces))
    | inl e => (s, Failure 500 e)
    end
  else (s, DescriptorList (map descriptorOf (filterByUser quser (inMemoryFaces s)))).

(** DELETE /api/faces/:id *)
Definition deleteFace (fid : string) (s : server) : server * response :=
  if (readyState s =? 1)%Z then
    match findByIdAndDelete fid (collection s) with
    | inr c => (setCollection s c, Deleted "Face deleted successfully")
    | inl e => (s, Failure 500 e)
    end
  else
    (setInMemoryFaces s (filter (fun f => negb (String.eqb (id f) fid)) (inMemoryFaces s)),
     Deleted "Face deleted successfully (in-memory)").

End Endpoints.

(** Newest first: the timestamps never increase along the list. *)
Fixpoint newestFirst (ts : list Z) : bool :=
  match ts with
  | t :: (u :: _) as r => (u <=? t)%Z && newestFirst r
  | _ => true
  end.

Arguments face : clear implicits.
Arguments registerBody : clear implicits.
Arguments faceFields : clear implicits.
Arguments faceEntry : clear implicits.
Arguments descriptorEntry : clear implicits.
Arguments Driver : clear implicits.
Arguments server : clear implicits.
Arguments response : clear implicits.

End Store.

(* ------------------------------------------------------------------ *)
(** ** Descriptor matcher *)

Module Matcher.
Local Open Scope string_scope.
Local Open Scope Q_scope.

(** A face descriptor: the embedding model's vector.  The numbers are
    kept exact (rationals). *)
Definition descriptor := list Q.

(** [new faceapi.LabeledFaceDescriptors(label, descriptors)] *)
Record LabeledFaceDescriptors := {
  label : string;
  descriptors : list descriptor
}.

(** [new faceapi.FaceMatcher(labeledDescriptors, distanceThreshold)] *)
Record FaceMatcher := {
  labeledDescriptors : list LabeledFaceDescriptors;
  distanceThreshold : Q
}.

(** Modelled from the spec: the distance of the matcher, whose code is
    the face-api library's and not in the repository.  The design
    document has the Euclidean distance over equal-length vectors; this
    is its square, which orders pairs of vectors the same way and needs
    no square root. *)
Fixpoint squaredDistance (a b : descriptor) : Q :=
  match a, b with
  | x :: a', y :: b' => (x - y) * (x - y) + squaredDistance a' b'
  | _, _ => 0
  end.

(** The Euclidean distance itself, a real number. *)
Definition euclideanDistance (a b : descriptor) : R := sqrt (Q2R (squaredDistance a b)).

(** Every reference descriptor with its label, in the insertion order of
    the mapping. *)
Definition references (m : FaceMatcher) : list (string * descriptor) :=
  flat_map (fun ld => map (fun d => (label ld, d)) (descriptors ld)) (labeledDescriptors m).

Definition Qlt_bool (a b : Q) : bool := negb (Qle_bool b a).

(** Modelled from the spec: the scan for the minimum distance between
    the probe and every reference descriptor across all labels, missing
    with the library; ties are broken by the first-encountered label. *)
Fixpoint closest (probe : descriptor) (best : string * Q)
    (refs : list (string * descriptor)) : string * Q :=
  match refs with
  | [] => best
  | (l, d) :: rest =>
      let dist := squaredDistance probe d in
      closest probe (if Qlt_bool dist (snd best) then (l, dist) else best) rest
  end.

(** Modelled from the spec: the closest reference of a matcher, missing
    with the library; [None] when the matcher has no reference. *)
Definition matchDescriptor (m : FaceMatcher) (probe : descriptor) : option (string * Q) :=
  match references m with
  | [] => None
  | (l, d) :: rest => Some (closest probe (l, squaredDistance probe d) rest)
  end.

(** [distance <= threshold], on the squares. *)
Definition withinThreshold (m : FaceMatcher) (dist : Q) : bool :=
  Qle_bool dist (distanceThreshold m * distanceThreshold m).

(** Modelled from the spec: [FaceMatcher.findBestMatch], missing with
    the library: the label of the closest reference if its distance is
    at most the threshold, else the sentinel label ["unknown"]; with it
    the (squared) minimum distance.  Without any reference the answer
    is ["unknown"]. *)
Definition findBestMatch (m : FaceMatcher) (probe : descriptor) : string * option Q :=
  match matchDescriptor m probe with
  | None => ("unknown", None)
  | Some (l, dist) => (if withinThreshold m dist then l else "unknown", Some dist)
  end.

End Matcher.

(* ------------------------------------------------------------------ *)
(** ** Face pipeline controller: the FaceRecognition component *)

Module Controller.
Import Js Store Matcher.
Local Open Scope string_scope.

(** The store as the controller uses it: names are strings, descriptors
    arrays of numbers ([Array.from(detection.descriptor)] on the way
    out, [new Float32Array(face.descriptor)] on the way back). *)
Definition Face := face string descriptor.
Definition Entry := faceEntry string.
Definition Response := response string descriptor.

(** The component's state that the face pipeline reads or writes.
    [videoRef] tells whether [videoRef.current] is set; [notices] are
    the calls of [addNotification], in order. *)
Record controller := {
  modelsLoaded : bool;
  videoRef : bool;
  registeredFaces : list Entry;
  labeledDescriptors : list LabeledFaceDescriptors;
  faceMatcher : option FaceMatcher;
  registrationMode : bool;
  newPersonName : string;
  isLoading : bool;
  notices : list (string * string)
}.

Definition setRegisteredFaces (v : list Entry) (c : controller) : controller :=
  {| modelsLoaded := modelsLoaded c; videoRef := videoRef c; registeredFaces := v;
     labeledDescriptors := labeledDescriptors c; faceMatcher := faceMatcher c;
     registrationMode := registrationMode c; newPersonName := newPersonName c;
     isLoading := isLoading c; notices := notices c |}.

Definition setLabeledDescriptors (v : list LabeledFaceDescriptors) (c : controller) : controller :=
  {| modelsLoaded := modelsLoaded c; videoRef := videoRef c; registeredFaces := registeredFaces c;
     labeledDescriptors := v; faceMatcher := faceMatcher c;
     registrationMode := registrationMode c; newPersonName := newPersonName c;
     isLoading := isLoading c; notices := notices c |}.

Definition setFaceMatcher (v : option FaceMatcher) (c : controller) : controller :=
  {| modelsLoaded := modelsLoaded c; videoRef := videoRef c; registeredFaces := registeredFaces c;
     labeledDescriptors := labeledDescriptors c; faceMatcher := v;
     registrationMode := registrationMode c; newPersonName := newPersonName c;
     isLoading := isLoading c; notices := notices c |}.

Definition setRegistrationMode (v : bool) (c : controller) : controller :=
  {| modelsLoaded := modelsLoaded c; videoRef := videoRef c; registeredFaces := registeredFaces c;
     labeledDescriptors := labeledDescriptors c; faceMatcher := faceMatcher c;
     registrationMode := v; newPersonName := newPersonName c;
     isLoading := isLoading c; notices := notices c |}.

Definition setNewPersonName (v : string) (c : controller) : controller :=
  {| modelsLoaded := modelsLoaded c; videoRef := videoRef c; registeredFaces := registeredFaces c;
     labeledDescriptors := labeledDescriptors c; faceMatcher := faceMatcher c;
     registrationMode := registrationMode c; newPersonName := v;
     isLoading := isLoading c; notices := notices c |}.

Definition setIsLoading (v : bool) (c : controller) : controller :=
  {| modelsLoaded := modelsLoaded c; videoRef := videoRef c; registeredFaces := registeredFaces c;
     labeledDescriptors := labeledDescriptors c; faceMatcher := faceMatcher c;
     registrationMode := registrationMode c; newPersonName := newPersonName c;
     isLoading := v; notices := notices c |}.

(** The prop [addNotification(message, type)], seen from the component. *)
Definition addNotification (message type : string) (c : controller) : controller :=
  {| modelsLoaded := modelsLoaded c; videoRef := videoRef c; registeredFaces := registeredFaces c;
     labeledDescriptors := labeledDescriptors c; faceMatcher := faceMatcher c;
     registrationMode := registrationMode c; newPersonName := newPersonName c;
     isLoading := isLoading c; notices := (notices c ++ [(message, type)])%list |}.

(** The strings of the page are kept as the bytes of their UTF-8
    encoding, the encoding of the source file and of the request bodies.

    [!s.trim()]: the string is empty once its white space is trimmed,
    that is, it consists of white space only.  [String.prototype.trim]
    strips the language's WhiteSpace and LineTerminator code points:
    U+0009 to U+000D and U+0020 (one byte each), U+00A0 (two bytes),
    and U+1680, U+2000 to U+200A, U+2028, U+2029, U+202F, U+205F,
    U+3000 and U+FEFF (three bytes each). *)
Definition isSpace (c : Ascii.ascii) : bool :=
  let n := Ascii.nat_of_ascii c in
  (Nat.eqb n 32 || (Nat.leb 9 n && Nat.leb n 13))%bool.

(** U+00A0 is C2 A0. *)
Definition isSpace2 (c1 c2 : Ascii.ascii) : bool :=
  (Nat.eqb (Ascii.nat_of_ascii c1) 194 && Nat.eqb (Ascii.nat_of_ascii c2) 160)%bool.

(** U+1680 is E1 9A 80; U+2000 to U+200A are E2 80 80 to E2 80 8A;
    U+2028, U+2029 and U+202F are E2 80 A8, E2 80 A9 and E2 80 AF;
    U+205F is E2 81 9F; U+3000 is E3 80 80; U+FEFF is EF BB BF. *)
Definition isSpace3 (c1 c2 c3 : Ascii.ascii) : bool :=
  let n1 := Ascii.nat_of_ascii c1 in
  let n2 := Ascii.nat_of_ascii c2 in
  let n3 := Ascii.nat_of_ascii c3 in
  ((Nat.eqb n1 225 && Nat.eqb n2 154 && Nat.eqb n3 128)
   || (Nat.eqb n1 226 && Nat.eqb n2 128
       && ((Nat.leb 128 n3 && Nat.leb n3 138) || Nat.eqb n3 168 || Nat.eqb n3 169
           || Nat.eqb n3 175))
   || (Nat.eqb n1 226 && Nat.eqb n2 129 && Nat.eqb n3 159)
   || (Nat.eqb n1 227 && Nat.eqb n2 128 && Nat.eqb n3 128)
   || (Nat.eqb n1 239 && Nat.eqb n2 187 && Nat.eqb n3 191))%bool.

Fixpoint isBlank (s : string) : bool :=
  match s with
  | EmptyString => true
  | String c1 s1 =>
      if isSpace c1 then isBlank s1
      else
        match s1 with
        | EmptyString => false
        | String c2 s2 =>
            if isSpace2 c1 c2 then isBlank s2
            else
              match s2 with
              | EmptyString => false
              | String c3 s3 => if isSpace3 c1 c2 c3 then isBlank s3 else false
              end
        end
  end.

(** What the embedding model answers to
    [detectSingleFace(video).withFaceLandmarks().withFaceDescriptor()]:
    the call raises, finds no face, or yields a descriptor. *)
Inductive detection :=
| DetectionRaised
| NoFace
| FaceFound (d : descriptor).

(** [data.faces.map(face => new faceapi.LabeledFaceDescriptors(face.name,
    [new Float32Array(face.descriptor)]))]: one labeled entry per
    stored face, each with that face's one descriptor. *)
Definition labeled (faces : list (descriptorEntry string descriptor)) : list LabeledFaceDescriptors :=
  map (fun f => {| label := d_name f; descriptors := [d_descriptor f] |}) faces.

(** [new faceapi.FaceMatcher(labeledDescriptors, 0.6)] *)
Definition newFaceMatcher (lds : list LabeledFaceDescriptors) : FaceMatcher :=
  {| Matcher.labeledDescriptors := lds; distanceThreshold := 6 # 10 |}.

(** The faces of the tenant the component always asks for
    ([?userId=default_user]), out of the in-memory list. *)
Definition tenantFaces (mem : list Face) : list Face :=
  filter (fun f => String.eqb (userId f) "default_user") mem.

(** The record the in-memory fallback stores for a registration of
    name [n] and descriptor [d] at clock reading [now]. *)
Definition registered (n : string) (d : descriptor) (now : Z) : Face :=
  {| id := toString now; name := n; faceDescriptor := d; userId := "default_user";
     imageUrl := None; timestamp := now |}.

(** The matcher the component holds after [loadFaceDescriptors] was
    answered with the list [ds], [old] being the one it held before:
    the guard [data.faces.length > 0] keeps the old one on an empty
    list. *)
Definition reloaded (ds : list (descriptorEntry string descriptor)) (old : option FaceMatcher) :
    option FaceMatcher :=
  match ds with
  | [] => old
  | _ :: _ => Some (newFaceMatcher (labeled ds))
  end.

Section Pipeline.

Context {Coll : Type} `{Driver string descriptor Coll}.

(** The component together with the server it talks to.  [net] tells,
    for each of the coming fetches in turn, whether it reaches the
    server (else it rejects); once the list is used up every fetch
    does.  [clock] is the server's clock reading. *)
Record world := {
  backend : server string descriptor Coll;
  net : list bool;
  clock : Z;
  ui : controller
}.

Definition onUi (f : controller -> controller) (w : world) : world :=
  {| backend := backend w; net := net w; clock := clock w; ui := f (ui w) |}.

(** [await fetch(...)] followed by [await response.json()]: the
    handler runs on the server and its body comes back, or the fetch
    rejects. *)
Definition fetch (h : server string descriptor Coll -> server string descriptor Coll * Response)
    (w : world) : world * option Response :=
  match net w with
  | false :: rest =>
      ({| backend := backend w; net := rest; clock := clock w; ui := ui w |}, None)
  | reaches =>
      let (s, r) := h (backend w) in
      ({| backend := s; net := tl reaches; clock := clock w; ui := ui w |}, Some r)
  end.

(** [loadFaceDescriptors]: the matcher is rebuilt only under
    [data.success && data.faces.length > 0]; a rejected fetch is logged. *)
Definition loadFaceDescriptors (w : world) : world :=
  match fetch (getDescriptors (Some "default_user")) w with
  | (w1, Some (DescriptorList faces)) =>
      if (0 <? List.length faces)%nat then
        let lds := labeled faces in
        let matcher := newFaceMatcher lds in
        onUi (fun c => setFaceMatcher (Some matcher) (setLabeledDescriptors lds c)) w1
      else w1
  | (w1, _) => w1
  end.

(** [loadRegisteredFaces] *)
Definition loadRegisteredFaces (w : world) : world :=
  let w0 := onUi (setIsLoading true) w in
  let w' :=
    match fetch (getFaces (Some "default_user")) w0 with
    | (w1, Some (FaceList faces)) =>
        let message := "📋 Loaded " ++ toString (Z.of_nat (List.length faces)) ++ " registered faces" in
        loadFaceDescriptors
          (onUi (fun c => addNotification message "success" (setRegisteredFaces faces c)) w1)
    | (w1, Some _) => w1
    | (w1, None) => onUi (addNotification "❌ Failed to load registered faces" "error") w1
    end in
  onUi (setIsLoading false) w'.

(** [registerFace]; [shot] is the embedding model's answer to the
    fresh single-face detection. *)
Definition registerFace (shot : detection) (w : world) : world :=
  if isBlank (newPersonName (ui w)) then
    onUi (addNotification "⚠️ Please enter a name" "warning") w
  else if negb (videoRef (ui w)) || negb (modelsLoaded (ui w)) then
    onUi (addNotification "⚠️ Camera not ready" "warning") w
  else
    let cname := newPersonName (ui w) in
    let w0 := onUi (fun c => addNotification "📸 Capturing face..." "info" (setIsLoading true c)) w in
    let w' :=
      match shot with
      | DetectionRaised => onUi (addNotification "❌ Failed to register face" "error") w0
      | NoFace =>
          onUi (fun c => setIsLoading false
                  (addNotification
                     "⚠️ No face detected. Please position your face clearly in the camera."
                     "warning" c)) w0
      | FaceFound faceDescriptor =>
          let body := {| b_name := Some cname; b_faceDescriptor := Some faceDescriptor;
                         b_userId := Some "default_user"; b_imageUrl := None |} in
          match fetch (postRegister (clock w0) body) w0 with
          | (w1, Some data) =>
              if success data then
                loadRegisteredFaces
                  (onUi (fun c => setRegistrationMode false (setNewPersonName ""
                           (addNotification ("✅ " ++ cname ++ " registered successfully") "success" c))) w1)
              else onUi (addNotification "❌ Failed to register face" "error") w1
          | (w1, None) => onUi (addNotification "❌ Failed to register face" "error") w1
          end
      end in
    onUi (setIsLoading false) w'.

(** [deleteFace(id)] *)
Definition deleteFace (fid : string) (w : world) : world :=
  let w0 := onUi (setIsLoading true) w in
  let w' :=
    match fetch (Store.deleteFace fid) w0 with
    | (w1, Some data) =>
        if success data then
          loadRegisteredFaces (onUi (addNotification "✅ Person removed" "success") w1)
        else onUi (addNotification "❌ Failed to remove person" "error") w1
    | (w1, None) => onUi (addNotification "❌ Failed to remove person" "error") w1
    end in
  onUi (setIsLoading false) w'.

End Pipeline.

Arguments world : clear implicits.

(** What the [detectFaces] of the render whose state is [c] writes on
    a detected face: [faceMatcher.findBestMatch(detection.descriptor)]
    if that render's [faceMatcher] is set, and no label otherwise (the
    expressions are drawn).  [detectFaces] is made anew by every render
    and closes over the state of its own render; which render's
    function a tick of the detection calls is told by [Live.page]. *)
Definition recognize (c : controller) (probe : descriptor) : option (string * option Q) :=
  option_map (fun m => findBestMatch m probe) (faceMatcher c).

End Controller.

(* ------------------------------------------------------------------ *)
(** ** The running detection and the render that started it *)

Module Live.
Import Js Store Matcher Controller.

Section Page.

Context {Coll : Type} `{Driver string descriptor Coll}.

(** [startDetection] calls [detectFaces] once and hands the same
    function to [setInterval(detectFaces, 100)]: the [detectFaces] of
    the render in which the button was clicked, which closes over that
    render's [faceMatcher].  Later renders make functions of their own,
    and the component has no effect that arms the timer again when the
    state changes.  So the page is the component's current state with
    its server ([shown]), the state [isDetecting], the ref
    [detectionIntervalRef], and for every armed interval timer its id
    with the state of the render whose [detectFaces] it calls.  Timer
    ids start at 1. *)
Record page := {
  shown : world Coll;
  isDetecting : bool;
  detectionIntervalRef : option nat;
  intervals : list (nat * controller);
  nextInterval : nat
}.

(** Whatever changes the state or the server and leaves the timers
    alone: [registerFace], [deleteFace], [loadRegisteredFaces], typing
    a name. *)
Definition act (f : world Coll -> world Coll) (p : page) : page :=
  {| shown := f (shown p); isDetecting := isDetecting p;
     detectionIntervalRef := detectionIntervalRef p;
     intervals := intervals p; nextInterval := nextInterval p |}.

(** [startDetection], clicked on the page as it is shown:
    [setIsDetecting(true); detectFaces();
     detectionIntervalRef.current = setInterval(detectFaces, 100)]. *)
Definition startDetection (p : page) : page :=
  {| shown := shown p; isDetecting := true;
     detectionIntervalRef := Some (nextInterval p);
     intervals := (intervals p ++ [(nextInterval p, ui (shown p))])%list;
     nextInterval := S (nextInterval p) |}.

(** [stopDetection]: [setIsDetecting(false);
     if (detectionIntervalRef.current) clearInterval(detectionIntervalRef.current)]. *)
Definition stopDetection (p : page) : page :=
  {| shown := shown p; isDetecting := false;
     detectionIntervalRef := detectionIntervalRef p;
     intervals :=
       match detectionIntervalRef p with
       | Some i => filter (fun t => negb (Nat.eqb (fst t) i)) (intervals p)
       | None => intervals p
       end;
     nextInterval := nextInterval p |}.

(** The render whose [detectFaces] the timer [i] calls, if the timer
    is armed. *)
Definition armed (i : nat) (p : page) : option controller :=
  option_map snd (List.find (fun t => Nat.eqb (fst t) i) (intervals p)).

(** The timer [i] comes due, its [detectFaces] gets past the guard and
    the model finds a face of descriptor [probe]: what is written on
    that face.  [None] when the timer is not armed; [Some None] when the
    face is drawn without a label. *)
Definition intervalFires (i : nat) (probe : descriptor) (p : page) :
    option (option (string * option Q)) :=
  option_map (fun render => recognize render probe) (armed i p).

(** The page when the component has just mounted on the world [w]. *)
Definition mounted (w : world Coll) : page :=
  {| shown := w; isDetecting := false; detectionIntervalRef := None;
     intervals := []; nextInterval := 1 |}.

End Page.

Arguments page : clear implicits.

End Live.

(* ------------------------------------------------------------------ *)
(** ** A list-backed collection *)

Module ListDriver.
Import Js Store.
Local Open Scope string_scope.

Section Collection.

Context {Name Desc : Type}.

(** A document collection kept as a list in insertion order, with a
    counter for the ids it hands out and a flag telling whether the
    connection still answers.  It runs the durable branch of the
    handlers on examples. *)
Record coll := {
  docs : list (face Name Desc);
  nextId : Z;
  up : bool
}.

(** The ids of the collection are ObjectIds, written as 24 hexadecimal
    digits.  [isObjectId] is the cast of a string to an id, which
    [findByIdAndDelete] makes before it looks anything up: it fails on
    every other string.  (Drivers older than the one that requires 24
    digits also cast any string of twelve characters; this one does
    not.) *)
Definition isHexDigit (c : Ascii.ascii) : bool :=
  let n := Ascii.nat_of_ascii c in
  ((Nat.leb 48 n && Nat.leb n 57) || (Nat.leb 97 n && Nat.leb n 102)
   || (Nat.leb 65 n && Nat.leb n 70))%bool.

Definition isObjectId (s : string) : bool :=
  (Nat.eqb (String.length s) 24 && forallb isHexDigit (list_ascii_of_string s))%bool.

Fixpoint zeros (k : nat) : string :=
  match k with
  | O => ""
  | S k' => "0" ++ zeros k'
  end.

(** The id handed out at counter reading [n]: its digits, padded to 24. *)
Definition objectId (n : Z) : string :=
  zeros (24 - String.length (toString n)) ++ toString n.

Definition matches (q : option string) (f : face Name Desc) : bool :=
  match q with
  | Some u => String.eqb (userId f) u
  | None => true
  end.

(** Insertion in a list kept newest first; equal timestamps keep
    their order. *)
Fixpoint insertNewest (e : faceEntry Name) (l : list (faceEntry Name)) : list (faceEntry Name) :=
  match l with
  | [] => [e]
  | x :: r => if (e_timestamp x <? e_timestamp e)%Z then e :: l else x :: insertNewest e r
  end.

Definition sortNewestFirst (l : list (faceEntry Name)) : list (faceEntry Name) :=
  fold_right insertNewest [] l.

Fixpoint removeFirst (fid : string) (l : list (face Name Desc)) : list (face Name Desc) :=
  match l with
  | [] => []
  | f :: r => if String.eqb (id f) fid then r else f :: removeFirst fid r
  end.

#[export] Instance list_driver : Driver Name Desc coll := {
  save fields now c :=
    if up c then
      let doc := {| id := objectId (nextId c); name := f_name fields;
                    faceDescriptor := f_faceDescriptor fields; userId := f_userId fields;
                    imageUrl := f_imageUrl fields; timestamp := now |} in
      inr ({| docs := (docs c ++ [doc])%list; nextId := nextId c + 1; up := up c |}, doc)
    else inl "connection lost";
  find q c :=
    if up c then inr (filter (matches q) (docs c)) else inl "connection lost";
  findNewestFirst q c :=
    if up c then inr (sortNewestFirst (map entryOf (filter (matches q) (docs c))))
    else inl "connection lost";
  findByIdAndDelete fid c :=
    if up c then
      if isObjectId fid
      then inr {| docs := removeFirst fid (docs c); nextId := nextId c; up := up c |}
      else inl "Cast to ObjectId failed"
    else inl "connection lost"
}.

Definition emptyColl : coll := {| docs := []; nextId := 1; up := true |}.

(** A fresh server without a database connection (the in-memory
    fallback is active), and one whose connection is open. *)
Definition memoryServer : server Name Desc coll :=
  {| readyState := 0; collection := emptyColl; inMemoryFaces := [] |}.

Definition durableServer : server Name Desc coll :=
  {| readyState := 1; collection := emptyColl; inMemoryFaces := [] |}.

(** The connection counts as open, but the database no longer answers. *)
Definition lostServer : server Name Desc coll :=
  {| readyState := 1; collection := {| docs := []; nextId := 1; up := false |};
     inMemoryFaces := [] |}.

End Collection.

Arguments coll : clear implicits.

End ListDriver.

(* ------------------------------------------------------------------ *)
(** ** The periodic detection loop of the FaceRecognition component *)

Module Detection.

(** What [detectFaces] tests before it calls the model:
    [videoRef.current], [modelsLoaded] and [canvasRef.current]. *)
Record component := {
  videoRef : bool;
  modelsLoaded : bool;
  canvasRef : bool
}.

(** The loop's state.  [intervals] are the interval timers that are
    armed, [detectionIntervalRef] the id kept in the ref (ids start at
    1, so a stored id is truthy); [pending] are the model calls that
    have not answered yet, each named by the number of the tick that
    made it; [ticks] counts the ticks that reached the model call;
    [applied] lists the ticks whose answer was put on the canvas. *)
Record loop := {
  streamRef : bool;
  isDetecting : bool;
  detectionIntervalRef : option nat;
  intervals : list nat;
  nextInterval : nat;
  pending : list nat;
  ticks : nat;
  applied : list nat
}.

Section Loop.

Variable comp : component.

(** [detectFaces] up to its [await]: the guard, then the model call. *)
Definition detectFaces (l : loop) : loop :=
  if negb (videoRef comp) || negb (modelsLoaded comp) || negb (canvasRef comp) then l
  else
    {| streamRef := streamRef l; isDetecting := isDetecting l;
       detectionIntervalRef := detectionIntervalRef l; intervals := intervals l;
       nextInterval := nextInterval l;
       pending := pending l ++ [ticks l]; ticks := S (ticks l); applied := applied l |}.

(** [detectFaces] from its [await] on, for the call of tick [k]: a
    fulfilled call has its detections put on the canvas, a rejected one
    is logged. *)
Definition modelAnswers (k : nat) (fulfilled : bool) (l : loop) : loop :=
  if existsb (Nat.eqb k) (pending l) then
    {| streamRef := streamRef l; isDetecting := isDetecting l;
       detectionIntervalRef := detectionIntervalRef l; intervals := intervals l;
       nextInterval := nextInterval l;
       pending := filter (fun j => negb (Nat.eqb j k)) (pending l); ticks := ticks l;
       applied := if fulfilled then applied l ++ [k] else applied l |}
  else l.

(** [setIsDetecting(true); detectFaces();
     detectionIntervalRef.current = setInterval(detectFaces, 100)] *)
Definition startDetection (l : loop) : loop :=
  let l1 := detectFaces
    {| streamRef := streamRef l; isDetecting := true;
       detectionIntervalRef := detectionIntervalRef l; intervals := intervals l;
       nextInterval := nextInterval l;
       pending := pending l; ticks := ticks l; applied := applied l |} in
  {| streamRef := streamRef l1; isDetecting := isDetecting l1;
     detectionIntervalRef := Some (nextInterval l1);
     intervals := intervals l1 ++ [nextInterval l1];
     nextInterval := S (nextInterval l1);
     pending := pending l1; ticks := ticks l1; applied := applied l1 |}.

(** [if (detectionIntervalRef.current) clearInterval(detectionIntervalRef.current)] *)
Definition clearDetectionInterval (l : loop) : list nat :=
  match detectionIntervalRef l with
  | Some i => filter (fun j => negb (Nat.eqb j i)) (intervals l)
  | None => intervals l
  end.

Definition stopDetection (l : loop) : loop :=
  {| streamRef := streamRef l; isDetecting := false;
     detectionIntervalRef := detectionIntervalRef l;
     intervals := clearDetectionInterval l;
     nextInterval := nextInterval l;
     pending := pending l; ticks := ticks l; applied := applied l |}.

Definition stopWebcam (l : loop) : loop :=
  if streamRef l then
    {| streamRef := false; isDetecting := false;
       detectionIntervalRef := detectionIntervalRef l;
       intervals := clearDetectionInterval l;
       nextInterval := nextInterval l;
       pending := pending l; ticks := ticks l; applied := applied l |}
  else l.

(** The interval timer [i] comes due: the browser calls [detectFaces]
    if the timer is still armed. *)
Definition intervalFires (i : nat) (l : loop) : loop :=
  if existsb (Nat.eqb i) (intervals l) then detectFaces l else l.

(** What can happen to the loop, one event-loop task at a time. *)
Inductive event :=
| StartDetection
| StopDetection
| StopWebcam
| IntervalFires (i : nat)
| ModelAnswers (k : nat) (fulfilled : bool).

Definition step (l : loop) (e : event) : loop :=
  match e with
  | StartDetection => startDetection l
  | StopDetection => stopDetection l
  | StopWebcam => stopWebcam l
  | IntervalFires i => intervalFires i l
  | ModelAnswers k fulfilled => modelAnswers k fulfilled l
  end.

Definition run (l : loop) (es : list event) : loop := fold_left step es l.

Definition isStart (e : event) : bool :=
  match e with
  | StartDetection => true
  | _ => false
  end.

End Loop.

(** The camera is on, nothing is running yet. *)
Definition cameraOn : loop :=
  {| streamRef := true; isDetecting := false; detectionIntervalRef := None;
     intervals := []; nextInterval := 1; pending := []; ticks := 0; applied := [] |}.

Definition mounted : component :=
  {| videoRef := true; modelsLoaded := true; canvasRef := true |}.

End Detection.

(* ------------------------------------------------------------------ *)
(** ** Notification bridge: [addNotification] of App *)

Module Notify.
Local Open Scope string_scope.

Record notification := {
  id : Z;
  message : string;
  type : string
}.

(** [notifications] is the state of that name, [spoken] the utterances
    handed to the speech engine, [timeouts] the pending [setTimeout]
    callbacks: the time each comes due and the [id] it closes over. *)
Record app := {
  notifications : list notification;
  spoken : list string;
  timeouts : list (Z * Z)
}.

(** [addNotification(message, type)] at clock reading [now]
    ([const id = Date.now()]). *)
Definition addNotification (now : Z) (message type : string) (a : app) : app :=
  let nid := now in
  {| notifications := (notifications a ++ [{| id := nid; message := message; type := type |}])%list;
     spoken := (spoken a ++ [message])%list;
     timeouts := (timeouts a ++ [(now + 5000, nid)])%list |}.

Fixpoint dropNth {A : Type} (k : nat) (l : list A) : list A :=
  match l, k with
  | [], _ => []
  | _ :: r, O => r
  | x :: r, S k' => x :: dropNth k' r
  end.

(** The [k]-th pending timeout comes due and runs
    [setNotifications(prev => prev.filter(n => n.id !== id))]. *)
Definition timeoutFires (k : nat) (a : app) : app :=
  match nth_error (timeouts a) k with
  | Some (_, nid) =>
      {| notifications := filter (fun n => negb (id n =? nid)%Z) (notifications a);
         spoken := spoken a;
         timeouts := dropNth k (timeouts a) |}
  | None => a
  end.

Definition initial : app := {| notifications := []; spoken := []; timeouts := [] |}.

End Notify.

(* ------------------------------------------------------------------ *)
(** ** Example requests and servers *)

Module Examples.
Import Js Store ListDriver.
Local Open Scope string_scope.

(** A register request as an arbitrary client may send it. *)
Definition jsonBody (n d : option json) : registerBody json json :=
  {| b_name := n; b_faceDescriptor := d; b_userId := None; b_imageUrl := None |}.

Definition jsonServer := server json json (coll json json).

(** Two faces registered one after the other, at clock readings 1000
    and 2000. *)
Definition twoFaces (s : jsonServer) : jsonServer :=
  let alice := jsonBody (Some (JStr "Alice")) (Some (JArr [JNum 0; JNum 0; JNum 0])) in
  let bob := jsonBody (Some (JStr "Bob")) (Some (JArr [JNum 1; JNum 0; JNum 0])) in
  fst (postRegister 2000 bob (fst (postRegister 1000 alice s))).

(** Two labeled references and a probe next to the first. *)
Definition aliceAndBob : Matcher.FaceMatcher :=
  {| Matcher.labeledDescriptors :=
       [{| Matcher.label := "Alice"; Matcher.descriptors := [[0; 0; 0]%Q] |};
        {| Matcher.label := "Bob"; Matcher.descriptors := [[1; 0; 0]%Q] |}];
     Matcher.distanceThreshold := 6 # 10 |}.

Definition nearAlice : Matcher.descriptor := [1 # 100; 0; 0]%Q.

(** The component once the models are loaded and the camera shows,
    talking to a fresh server on its in-memory fallback. *)
Definition readyUi : Controller.controller :=
  {| Controller.modelsLoaded := true; Controller.videoRef := true;
     Controller.registeredFaces := []; Controller.labeledDescriptors := [];
     Controller.faceMatcher := None; Controller.registrationMode := false;
     Controller.newPersonName := ""; Controller.isLoading := false;
     Controller.notices := [] |}.

Definition freshWorld : Controller.world (coll string Matcher.descriptor) :=
  {| Controller.backend := memoryServer; Controller.net := [];
     Controller.clock := 0; Controller.ui := readyUi |}.

(** The user types [n] in the name field while the server's clock
    reads [t], then registers the face the model sees as [d]. *)
Definition registerAs (n : string) (t : Z) (d : Matcher.descriptor)
    (w : Controller.world (coll string Matcher.descriptor)) :
    Controller.world (coll string Matcher.descriptor) :=
  Controller.registerFace (Controller.FaceFound d)
    {| Controller.backend := Controller.backend w; Controller.net := Controller.net w;
       Controller.clock := t;
       Controller.ui := Controller.setNewPersonName n (Controller.ui w) |}.

(** Alice is registered; then a second face under the same name. *)
Definition aliceOnly := registerAs "Alice" 1000 [0; 0; 0]%Q freshWorld.
Definition twoAlices := registerAs "Alice" 2000 [0; 0; 0]%Q aliceOnly.

(** The name field holds "Bob" and the clock reads 2000, Alice being
    registered. *)
Definition bobTyped : Controller.world (coll string Matcher.descriptor) :=
  {| Controller.backend := Controller.backend aliceOnly; Controller.net := [];
     Controller.clock := 2000;
     Controller.ui := Controller.setNewPersonName "Bob" (Controller.ui aliceOnly) |}.

(** The same, on a connection that carries the register request and
    drops the request after it. *)
Definition bobTypedFlaky : Controller.world (coll string Matcher.descriptor) :=
  {| Controller.backend := Controller.backend aliceOnly; Controller.net := [true; false];
     Controller.clock := 2000;
     Controller.ui := Controller.setNewPersonName "Bob" (Controller.ui aliceOnly) |}.

End Examples.

(* ------------------------------------------------------------------ *)
(** ** Navigation: the safe-route endpoint and what the page shows *)

Module Routes.
Import Js.
Local Open Scope string_scope.

Definition isLt (c : Ascii.ascii) : bool := Ascii.eqb c "<"%char.
Definition isGt (c : Ascii.ascii) : bool := Ascii.eqb c ">"%char.

(** What follows the first [>] of a string, if it has one. *)
Fixpoint afterGt (s : string) : option string :=
  match s with
  | EmptyString => None
  | String c r => if isGt c then Some r else afterGt r
  end.

(** [s.replace(/<[^>]*>/g, '')], scanning from the left: at a [<] that
    some [>] follows, the match runs up to the first such [>] and is
    dropped, and the scan goes on behind it; any other character is
    kept.  [fuel] bounds the number of steps; the length of the string
    is enough. *)
Fixpoint stripTagsFrom (fuel : nat) (s : string) : string :=
  match fuel with
  | O => s
  | S n =>
      match s with
      | EmptyString => EmptyString
      | String c r =>
          if isLt c then
            match afterGt r with
            | Some r' => stripTagsFrom n r'
            | None => String c (stripTagsFrom n r)
            end
          else String c (stripTagsFrom n r)
      end
  end.

Definition stripTags (s : string) : string := stripTagsFrom (String.length s) s.

(** A string has a tag when some [<] in it is followed, anywhere
    behind it, by a [>]: where [/<[^>]*>/] matches. *)
Fixpoint hasGt (s : string) : bool :=
  match s with
  | EmptyString => false
  | String c r => isGt c || hasGt r
  end.

Fixpoint hasTag (s : string) : bool :=
  match s with
  | EmptyString => false
  | String c r => (isLt c && hasGt r) || hasTag r
  end.

(** A leg of a Directions route, as far as the endpoint reads it:
    the steps' [html_instructions], [duration], [distance],
    [end_address] and the two locations. *)
Record leg := {
  steps : list string;
  duration_value : Z;
  duration_text : string;
  distance_text : string;
  end_address : string;
  start_location : string * string;
  end_location : string * string
}.

Record route := {
  legs : list leg;
  overview_polyline : string
}.

(** [response.data] of the Directions API. *)
Record directions := {
  status : string;
  routes : list route
}.

(** The [route] object of a successful answer. *)
Record routeBody := {
  r_origin : string;
  r_destination : string;
  r_distance : string;
  r_duration : string;
  r_safetyScore : Z;
  r_steps : list string;
  r_polyline : string;
  r_startLocation : string * string;
  r_endLocation : string * string
}.

Inductive response :=
| RouteFound (r : routeBody)
| RouteNotFound (error message : string)
| RouteFailure (code : Z) (error : string).

(** What [calculateSafetyScore] reads of a route. *)
Definition scored (r : route) : Scorer.route :=
  {| Scorer.legs := map (fun l => {| Scorer.duration_value := duration_value l |}) (legs r) |}.

(** POST /api/safe-route.  [key] is [process.env.GOOGLE_MAPS_API_KEY];
    [origin] is [req.body.origin] with its [lat] and [lng] as they
    print, absent when the body has none; [get] is the call of the
    Directions API through axios, given the origin string, the
    destination and the key, which raises (left) or answers.  Reading
    a property of an absent origin or of an absent first leg raises a
    TypeError, answered 500 by the catch branch like a raised [get]. *)
Definition postSafeRoute (key : option string)
    (get : string -> string -> string -> string + directions)
    (origin : option (string * string)) (destination : string) : response :=
  match orNull key with
  | None => RouteFailure 500 "Google Maps API key not configured"
  | Some k =>
      match origin with
      | None => RouteFailure 500 "Cannot read properties of undefined (reading 'lat')"
      | Some (lat, lng) =>
          let originStr := lat ++ "," ++ lng in
          match get originStr destination k with
          | inl e => RouteFailure 500 e
          | inr data =>
              match (String.eqb (status data) "OK" && (0 <? List.length (routes data))%nat)%bool,
                    routes data with
              | true, r :: _ =>
                  match legs r with
                  | [] => RouteFailure 500 "Cannot read properties of undefined (reading 'steps')"
                  | l :: _ =>
                      let steps := map stripTags (steps l) in
                      match Scorer.calculateSafetyScore (scored r) with
                      | Some safetyScore =>
                          RouteFound
                            {| r_origin := originStr; r_destination := end_address l;
                               r_distance := distance_text l; r_duration := duration_text l;
                               r_safetyScore := safetyScore; r_steps := steps;
                               r_polyline := overview_polyline r;
                               r_startLocation := start_location l;
                               r_endLocation := end_location l |}
                      | None =>
                          RouteFailure 500 "Cannot read properties of undefined (reading 'duration')"
                      end
                  end
              | _, _ =>
                  RouteNotFound (status data)
                    "Could not find route. Please check the destination address."
              end
          end
      end
  end.

(** [setSafetyScore(data.route.safetyScore || 75)] of the page. *)
Definition shownScore (r : routeBody) : Z :=
  if (r_safetyScore r =? 0)%Z then 75 else r_safetyScore r.

(** [getSafetyColor(score)] and [getSafetyLabel(score)] *)
Definition getSafetyColor (score : Z) : string :=
  if (80 <=? score)%Z then "text-green-400"
  else if (60 <=? score)%Z then "text-yellow-400"
  else "text-red-400".

Definition getSafetyLabel (score : Z) : string :=
  if (80 <=? score)%Z then "Very Safe"
  else if (60 <=? score)%Z then "Moderately Safe"
  else "Caution Advised".

End Routes.

(* ------------------------------------------------------------------ *)
(** ** Voice commands: [processCommand] of the VoiceCommands component *)

Module Voice.
Local Open Scope string_scope.

(** [s.includes(key)] *)
Fixpoint includes (s key : string) : bool :=
  String.prefix key s ||
  match s with
  | EmptyString => false
  | String _ r => includes r key
  end.

(** What a command's action does: [setActiveModule(m)] if any,
    [addNotification(message, type)] if any, then [speak(text)]. *)
Record action := {
  goto : option string;
  alert : option (string * string);
  say : string
}.

Definition open (m text : string) : action :=
  {| goto := Some m; alert := None; say := text |}.

(** The [commands] object, in the order of its keys. *)
Definition commands : list (string * action) :=
  [ ("go home", open "home" "Going to home screen");
    ("home", open "home" "Going to home screen");
    ("detect objects", open "detection" "Opening object detection");
    ("object detection", open "detection" "Opening object detection");
    ("read text", open "text" "Opening text reader");
    ("text reader", open "text" "Opening text reader");
    ("recognize face", open "face" "Opening face recognition");
    ("face recognition", open "face" "Opening face recognition");
    ("identify currency", open "currency" "Opening currency identification");
    ("currency", open "currency" "Opening currency identification");
    ("navigate", open "navigation" "Opening navigation");
    ("navigation", open "navigation" "Opening navigation");
    ("help",
     {| goto := None; alert := None;
        say := "Available commands: go home, detect objects, read text, recognize face, identify currency, navigate, or send SOS" |});
    ("what can you do",
     {| goto := None; alert := None;
        say := "I can detect objects, read text, recognize faces, identify currency, and provide safe navigation" |});
    ("send sos",
     {| goto := None; alert := Some ("SOS Alert Triggered", "warning");
        say := "Sending SOS alert to emergency contacts" |});
    ("emergency",
     {| goto := None; alert := Some ("Emergency Mode Activated", "warning");
        say := "Emergency mode activated. Say send SOS to alert contacts" |}) ].

(** The page as the voice commands act on it: the active module, the
    notification bridge of App, and the transcript clears that are
    scheduled ([setTimeout(() => setTranscript(''), 3000)]). *)
Record page := {
  activeModule : string;
  bridge : Notify.app;
  clears : nat
}.

(** [speak(text)] of App: one more utterance for the speech engine. *)
Definition speak (text : string) (a : Notify.app) : Notify.app :=
  {| Notify.notifications := Notify.notifications a;
     Notify.spoken := (Notify.spoken a ++ [text])%list;
     Notify.timeouts := Notify.timeouts a |}.

Definition perform (now : Z) (a : action) (p : page) : page :=
  let m := match goto a with Some m => m | None => activeModule p end in
  let b := match alert a with
           | Some (message, type) => Notify.addNotification now message type (bridge p)
           | None => bridge p
           end in
  {| activeModule := m; bridge := speak (say a) b; clears := clears p |}.

(** [processCommand(command)] at clock reading [now]: the action of
    the first key, in the order of the table, that the command
    includes; without any, the command is not recognized. *)
Definition processCommand (now : Z) (command : string) (p : page) : page :=
  let p' :=
    match find (fun e => includes command (fst e)) commands with
    | Some (_, a) => perform now a p
    | None =>
        {| activeModule := activeModule p;
           bridge := speak "Command not recognized. Say help for available commands" (bridge p);
           clears := clears p |}
    end in
  {| activeModule := activeModule p'; bridge := bridge p'; clears := S (clears p') |}.

End Voice.

(* ------------------------------------------------------------------ *)
(** ** Object detection: [announceDetections] *)

Module Announce.
Import Js.
Local Open Scope string_scope.

(** [lastAnnouncementRef.current]: the time of the last announcement
    and the classes announced then. *)
Record announcement := {
  time : Z;
  objects : list string
}.

(** [['car', 'truck', 'bicycle', 'motorcycle', 'person'].includes(c)] *)
Definition isHazard (c : string) : bool :=
  existsb (String.eqb c) ["car"; "truck"; "bicycle"; "motorcycle"; "person"].

(** [Array.prototype.sort()] on strings, without a comparator: the
    strings in ascending order of their characters' codes. *)
Fixpoint insertSorted (x : string) (l : list string) : list string :=
  match l with
  | [] => [x]
  | y :: r => if String.leb x y then x :: l else y :: insertSorted x r
  end.

Definition sort (l : list string) : list string := fold_right insertSorted [] l.

(** [[...new Set(l)]]: the first occurrence of each string, in order. *)
Fixpoint unique (seen l : list string) : list string :=
  match l with
  | [] => []
  | x :: r =>
      if existsb (String.eqb x) seen then unique seen r else x :: unique (x :: seen) r
  end.

(** [JSON.stringify(a) !== JSON.stringify(b)] on arrays of strings. *)
Definition differ (a b : list string) : bool :=
  if list_eq_dec string_dec a b then false else true.

(** What one call does: the new content of the ref, the notification
    it adds at once, and the warning it schedules for 500 ms later. *)
Record outcome := {
  ref : announcement;
  announced : option (string * string);
  warning : option (string * string)
}.

Definition quiet (a : announcement) : outcome :=
  {| ref := a; announced := None; warning := None |}.

(** [announceDetections(predictions)] at clock reading [now];
    [predictions] are the classes of the predictions, in their order,
    [last] is the content of the ref. *)
Definition announceDetections (now : Z) (predictions : list string) (last : announcement) : outcome :=
  if (now - time last <? 3000)%Z then quiet last
  else
    match predictions with
    | [] =>
        if ((0 <? List.length (objects last))%nat && (5000 <? now - time last)%Z)%bool then
          {| ref := {| time := now; objects := [] |};
             announced := Some ("No objects detected", "info");
             warning := None |}
        else quiet last
    | _ :: _ =>
        let currentObjects := sort predictions in
        let previousObjects := sort (objects last) in
        let objectsChanged := differ currentObjects previousObjects in
        if (objectsChanged || (8000 <? now - time last)%Z)%bool then
          let uniqueObjects := unique [] currentObjects in
          let objectList := String.concat ", " (firstn 3 uniqueObjects) in
          let message :=
            if (3 <? List.length uniqueObjects)%nat
            then "Detected: " ++ objectList ++ " and "
                 ++ toString (Z.of_nat (List.length uniqueObjects - 3)) ++ " more"
            else "Detected: " ++ objectList in
          let hazards := filter isHazard predictions in
          {| ref := {| time := now; objects := currentObjects |};
             announced := Some (message, "success");
             warning :=
               if ((0 <? List.length hazards)%nat && negb (existsb isHazard previousObjects))%bool
               then Some ("Warning: " ++ toString (Z.of_nat (List.length hazards))
                          ++ " moving object(s) nearby", "warning")
               else None |}
        else quiet {| time := time last; objects := previousObjects |}
    end.

(** A run of calls, each with its clock reading and its predictions;
    the log keeps, for every call that announced something, the clock
    reading, the notification, and whether a warning was scheduled. *)
Fixpoint run (calls : list (Z * list string)) (last : announcement) :
    announcement * list (Z * (string * string) * bool) :=
  match calls with
  | [] => (last, [])
  | (now, predictions) :: rest =>
      let o := announceDetections now predictions last in
      let (final, log) := run rest (ref o) in
      match announced o with
      | Some n => (final, (now, n, match warning o with Some _ => true | None => false end) :: log)
      | None => (final, log)
      end
  end.

(** [useRef({ time: 0, objects: [] })] *)
Definition initial : announcement := {| time := 0; objects := [] |}.

(** Every call that announces comes at least 3000 ms after the one
    before, the first one after [t0].  This counts the notification a
    call adds at once, not the warning it schedules. *)
Fixpoint spaced (t0 : Z) (log : list (Z * (string * string) * bool)) : Prop :=
  match log with
  | [] => True
  | (t, _, _) :: rest => (3000 <= t - t0)%Z /\ spaced t rest
  end.

(** When the notifications of a run are due, the scheduled warnings
    included: the one a call adds at once at the clock reading of the
    call, the warning of [setTimeout(..., 500)] 500 ms after it. *)
Fixpoint due (log : list (Z * (string * string) * bool)) : list Z :=
  match log with
  | [] => []
  | (t, _, w) :: rest => (t :: (if w then [t + 500] else []) ++ due rest)%list
  end.

(** Each time of the list is [gap] or more after the one before, the
    first one after [t0]. *)
Fixpoint apart (gap t0 : Z) (ts : list Z) : Prop :=
  match ts with
  | [] => True
  | t :: rest => (gap <= t - t0)%Z /\ apart gap t rest
  end.

(** No two announcements in a row are both "No objects detected", and
    no two in a row both schedule a warning. *)
Fixpoint alternating (log : list (Z * (string * string) * bool)) : Prop :=
  match log with
  | (_, n1, w1) :: ((_, n2, w2) :: _) as rest =>
      ~ (fst n1 = "No objects detected" /\ fst n2 = "No objects detected")
      /\ ~ (w1 = true /\ w2 = true)
      /\ alternating rest
  | _ => True
  end.

(** What the first announcement of a run can be, given the ref. *)
Definition headAllowed (last : announcement) (log : list (Z * (string * string) * bool)) : Prop :=
  match log with
  | [] => True
  | (_, n, w) :: _ =>
      (objects last = [] -> fst n <> "No objects detected")
      /\ (existsb isHazard (objects last) = true -> w = false)
  end.

End Announce.

(* ------------------------------------------------------------------ *)
(** ** Runs of the notification bridge *)

Module NotifyTrace.
Import Notify.
Local Open Scope string_scope.

(** What happens to the bridge: a call of [addNotification] at a clock
    reading, or the [k]-th pending timeout coming due. *)
Inductive event :=
| Add (now : Z) (message type : string)
| Fire (k : nat).

Definition step (a : app) (e : event) : app :=
  match e with
  | Add now message type => addNotification now message type a
  | Fire k => timeoutFires k a
  end.

Fixpoint run (es : list event) (a : app) : app :=
  match es with
  | [] => a
  | e :: rest => run rest (step a e)
  end.

(** The clock readings and the messages of the calls of a run. *)
Fixpoint addTimes (es : list event) : list Z :=
  match es with
  | [] => []
  | Add now _ _ :: rest => now :: addTimes rest
  | Fire _ :: rest => addTimes rest
  end.

Fixpoint addMessages (es : list event) : list string :=
  match es with
  | [] => []
  | Add _ message _ :: rest => message :: addMessages rest
  | Fire _ :: rest => addMessages rest
  end.

(** Every notification on screen has a pending timeout that carries
    its id. *)
Definition covered (a : app) : bool :=
  forallb (fun n => existsb (fun t => (snd t =? id n)%Z) (timeouts a)) (notifications a).

End NotifyTrace.

(* ------------------------------------------------------------------ *)
(** ** Further example values *)

Module MoreExamples.
Import Js Store ListDriver Examples.
Local Open Scope string_scope.

(** Alice is registered and the connection drops the next request. *)
Definition aliceOffline : Controller.world (coll string Matcher.descriptor) :=
  {| Controller.backend := Controller.backend aliceOnly; Controller.net := [false];
     Controller.clock := 2000;
     Controller.ui := Controller.setNewPersonName "Bob" (Controller.ui aliceOnly) |}.

(** A provider that knows one walk of 600 seconds. *)
Definition oneWalk : Routes.directions :=
  {| Routes.status := "OK";
     Routes.routes :=
       [{| Routes.legs :=
             [{| Routes.steps := ["Head <b>north</b>"; "Turn <b>left</b>"];
                 Routes.duration_value := 600; Routes.duration_text := "10 mins";
                 Routes.distance_text := "0.8 km"; Routes.end_address := "Main St";
                 Routes.start_location := ("12.9", "77.5");
                 Routes.end_location := ("12.91", "77.5") |}];
           Routes.overview_polyline := "abc" |}] |}.

Definition provider (origin destination key : string) : string + Routes.directions :=
  inr oneWalk.

(** The user types [n] in the name field while the server's clock
    reads [t]. *)
Definition typed (n : string) (t : Z) (w : Controller.world (coll string Matcher.descriptor)) :
    Controller.world (coll string Matcher.descriptor) :=
  {| Controller.backend := Controller.backend w; Controller.net := Controller.net w;
     Controller.clock := t;
     Controller.ui := Controller.setNewPersonName n (Controller.ui w) |}.

(** Detection is started on the fresh page, no face being registered;
    then the user types Alice. *)
Definition watching : Live.page (coll string Matcher.descriptor) :=
  Live.startDetection (Live.mounted freshWorld).

Definition watchingAliceTyped : Live.page (coll string Matcher.descriptor) :=
  Live.act (typed "Alice" 1000) watching.

(** Alice is registered and listed, and detection is started then. *)
Definition aliceWatched : Live.page (coll string Matcher.descriptor) :=
  Live.startDetection (Live.mounted aliceOnly).

(** The face the store holds for Alice. *)
Definition alice : Controller.Face := Controller.registered "Alice" [0; 0; 0]%Q 1000.

(** A no-break space, U+00A0, a zero width space, U+200B, and an e
    with acute accent, U+00E9, in UTF-8. *)
Definition nbsp : string :=
  String (Ascii.ascii_of_nat 194) (String (Ascii.ascii_of_nat 160) EmptyString).

Definition zwsp : string :=
  String (Ascii.ascii_of_nat 226)
    (String (Ascii.ascii_of_nat 128) (String (Ascii.ascii_of_nat 139) EmptyString)).

Definition eacute : string :=
  String (Ascii.ascii_of_nat 195) (String (Ascii.ascii_of_nat 169) EmptyString).

(** The name field holds a no-break space and nothing else. *)
Definition nbspTyped : Controller.world (coll string Matcher.descriptor) :=
  typed nbsp 1000 freshWorld.

End MoreExamples.

(* ------------------------------------------------------------------ *)
(** ** Numbering of the model calls of the detection loop *)

Module DetectionTicks.
Import Detection.

(** Every pending or applied tick was started, and none occurs twice. *)
Definition wellNumbered (l : loop) : Prop :=
  NoDup (pending l ++ applied l)
  /\ forall k, In k (pending l ++ applied l) -> (k < ticks l)%nat.

End DetectionTicks.

(* ================================================================== *)
(** * Properties *)

(* ------------------------------------------------------------------ *)
(** ** Route safety score *)

Module ScorerProps.
Import Scorer.

Lemma minutes_below_15 (l : leg) :
  Qlt_bool (durationMinutes l) 15 = (duration_value l <? 900).
Proof.
  unfold Qlt_bool, durationMinutes, Qle_bool. cbn.
  destruct (Z.ltb_spec (duration_value l) 900);
    [apply negb_true_iff, Z.leb_gt | apply negb_false_iff, Z.leb_le]; lia.
Qed.

Lemma minutes_above_45 (l : leg) :
  Qlt_bool 45 (durationMinutes l) = (2700 <? duration_value l).
Proof.
  unfold Qlt_bool, durationMinutes, Qle_bool. cbn.
  destruct (Z.ltb_spec 2700 (duration_value l));
    [apply negb_true_iff, Z.leb_gt | apply negb_false_iff, Z.leb_le]; lia.
Qed.

Lemma rawScore_cases (l : leg) :
  rawScore l =
    if duration_value l <? 900 then 85
    else if 2700 <? duration_value l then 65 else 75.
Proof.
  unfold rawScore. rewrite minutes_below_15, minutes_above_45.
  destruct (Z.ltb_spec (duration_value l) 900);
    destruct (Z.ltb_spec 2700 (duration_value l)); try reflexivity; lia.
Qed.

Lemma calculateSafetyScore_first_leg (r : route) (l : leg) (rest : list leg) :
  legs r = l :: rest ->
  calculateSafetyScore r = Some (score_spec (duration_value l)).
Proof.
  intros E. unfold calculateSafetyScore, score_spec. rewrite E. cbn [nth_error].
  rewrite rawScore_cases.
  change (15 * 60) with 900. change (45 * 60) with 2700.
  destruct (Z.ltb_spec (duration_value l) 900);
    destruct (Z.ltb_spec 2700 (duration_value l)); try reflexivity; lia.
Qed.

Lemma totalDuration_single (r : route) (l : leg) :
  legs r = [l] -> totalDuration r = duration_value l.
Proof.
  intros E. unfold totalDuration. rewrite E. cbn. lia.
Qed.

(** C5. For a route as the Directions request of the server returns it
    (no waypoints, hence one leg), [calculateSafetyScore] is the score
    of the design document at the route's total duration: base 75, +10
    below 15 minutes, -10 above 45 minutes, clamped to [50, 95]; 600
    seconds score 85 and 3600 seconds score 65. *)
Theorem calculateSafetyScore_design (r : route) (l : leg) :
  legs r = [l] ->
  calculateSafetyScore r = Some (score_spec (totalDuration r))
  /\ calculateSafetyScore {| legs := [{| duration_value := 600 |}] |} = Some 85
  /\ calculateSafetyScore {| legs := [{| duration_value := 3600 |}] |} = Some 65.
Proof.
  intros E. split; [| split; reflexivity].
  rewrite (totalDuration_single r l E).
  exact (calculateSafetyScore_first_leg r l [] E).
Qed.

Lemma calculateSafetyScore_design_witness :
  legs {| legs := [{| duration_value := 1800 |}] |} = [{| duration_value := 1800 |}]
  /\ calculateSafetyScore {| legs := [{| duration_value := 1800 |}] |} = Some 75.
Proof.
  split; [reflexivity |].
  exact (proj1 (calculateSafetyScore_design
                  {| legs := [{| duration_value := 1800 |}] |} {| duration_value := 1800 |} eq_refl)).
Defined.

(** C10. Whatever the duration of the route's first leg, the score is
    one of 65, 75 and 85, and it is the score computed before the
    clamp: the clamp to [50, 95] changes nothing. *)
Theorem calculateSafetyScore_three_values (r : route) (l : leg) (rest : list leg) :
  legs r = l :: rest ->
  exists s, calculateSafetyScore r = Some s
    /\ (s = 65 \/ s = 75 \/ s = 85)
    /\ s = rawScore l.
Proof.
  intros E. unfold calculateSafetyScore. rewrite E. cbn [nth_error].
  exists (rawScore l). rewrite rawScore_cases.
  destruct (duration_value l <? 900); [| destruct (2700 <? duration_value l)];
    repeat split; auto.
Qed.

Lemma calculateSafetyScore_three_values_witness :
  exists s, calculateSafetyScore {| legs := [{| duration_value := 2701 |}] |} = Some s
    /\ (s = 65 \/ s = 75 \/ s = 85)
    /\ s = rawScore {| duration_value := 2701 |}.
Proof.
  exact (calculateSafetyScore_three_values
           {| legs := [{| duration_value := 2701 |}] |} {| duration_value := 2701 |} [] eq_refl).
Defined.

End ScorerProps.

(* ------------------------------------------------------------------ *)
(** ** Descriptor store *)

Module StoreProps.
Import Js Store.
Local Open Scope string_scope.

Section Generic.

Context {Name Desc : Type} `{JsValue Name} `{JsValue Desc}.
Context {Coll : Type} `{Driver Name Desc Coll}.

(** C4, as the code has it. The register endpoint answers 400 exactly
    when the name or the descriptor is missing or falsy (an empty array
    is truthy, so an empty descriptor is not rejected); a rejected
    request leaves the server's state as it was; a request that is not
    rejected appends exactly one record to the in-memory list when the
    fallback is active, and otherwise makes one [save] call, whose
    collection is kept when the call returns. *)
Theorem postRegister_validation (now : Z) (body : registerBody Name Desc)
    (s : server Name Desc Coll) :
  (status (snd (postRegister now body s)) = 400%Z
     <-> truthy_field (b_name body) = false \/ truthy_field (b_faceDescriptor body) = false)
  /\ (status (snd (postRegister now body s)) = 400%Z -> fst (postRegister now body s) = s)
  /\ (status (snd (postRegister now body s)) <> 400%Z ->
      (readyState s <> 1%Z ->
         exists f, inMemoryFaces (fst (postRegister now body s)) = (inMemoryFaces s ++ [f])%list
                   /\ Some (name f) = b_name body
                   /\ Some (faceDescriptor f) = b_faceDescriptor body
                   /\ collection (fst (postRegister now body s)) = collection s
                   /\ status (snd (postRegister now body s)) = 200%Z)
      /\ (readyState s = 1%Z ->
            inMemoryFaces (fst (postRegister now body s)) = inMemoryFaces s
            /\ ((exists e, fst (postRegister now body s) = s
                           /\ snd (postRegister now body s) = Failure 500 e)
                \/ (exists fields c doc,
                      save fields now (collection s) = inr (c, doc)
                      /\ Some (f_name fields) = b_name body
                      /\ Some (f_faceDescriptor fields) = b_faceDescriptor body
                      /\ fst (postRegister now body s) = setCollection s c
                      /\ status (snd (postRegister now body s)) = 200%Z)))).
Proof.
  unfold postRegister.
  destruct (b_name body) as [n |]; cbn [truthy_field];
    [destruct (b_faceDescriptor body) as [d |]; cbn [truthy_field] |].
  - destruct (truthy n) eqn:Tn; destruct (truthy d) eqn:Td; cbn [negb orb];
      try (cbn; repeat split; auto; try tauto; intros; congruence).
    destruct (readyState s =? 1)%Z eqn:R.
    + apply Z.eqb_eq in R.
      destruct (save _ now (collection s)) as [e | [c doc]] eqn:S; cbn [fst snd status].
      * repeat split; try (intros; discriminate); try tauto; try (intros [?|?]; discriminate).
        left. exists e. auto.
      * repeat split; try (intros; discriminate); try tauto; try (intros [?|?]; discriminate).
        right. eexists _, c, doc. repeat split; try exact S; reflexivity.
    + apply Z.eqb_neq in R. cbn [fst snd status].
      repeat split; try (intros; discriminate); try tauto; try (intros [?|?]; discriminate).
      intros _. eexists. repeat split.
  - cbn. repeat split; auto; try tauto; intros; congruence.
  - cbn. repeat split; auto; try tauto; intros; congruence.
Qed.

(** C7, as the code has it. Deleting never looks at whether a stored
    record carries the id. With the fallback active it filters the list
    and reports success, for every id. With the database connected it
    reports success for every id for which the driver's call returns,
    a record having been found or not; when the driver's call raises,
    the answer is 500 with [success: false] and the state is kept. *)
Theorem deleteFace_reports_success (fid : string) (s : server Name Desc Coll) :
  (readyState s <> 1%Z ->
     success (snd (deleteFace fid s)) = true
     /\ status (snd (deleteFace fid s)) = 200%Z
     /\ inMemoryFaces (fst (deleteFace fid s))
        = filter (fun f => negb (String.eqb (id f) fid)) (inMemoryFaces s))
  /\ (readyState s = 1%Z -> forall c, findByIdAndDelete fid (collection s) = inr c ->
        success (snd (deleteFace fid s)) = true
        /\ status (snd (deleteFace fid s)) = 200%Z
        /\ fst (deleteFace fid s) = setCollection s c)
  /\ (readyState s = 1%Z -> forall e, findByIdAndDelete fid (collection s) = inl e ->
        deleteFace fid s = (s, Failure 500 e)).
Proof.
  unfold deleteFace. split; [| split].
  - intros R. apply Z.eqb_neq in R. rewrite R. cbn. auto.
  - intros R c E. apply Z.eqb_eq in R. rewrite R, E. cbn. auto.
  - intros R e E. apply Z.eqb_eq in R. rewrite R, E. reflexivity.
Qed.

Lemma getFaces_in_memory (q : option string) (s : server Name Desc Coll) :
  readyState s <> 1%Z ->
  getFaces q s = (s, FaceList (map entryOf (filterByUser q (inMemoryFaces s)))).
Proof.
  intros R. unfold getFaces. apply Z.eqb_neq in R. rewrite R. reflexivity.
Qed.

End Generic.

Import ListDriver Examples.

(** C4, the claim as worded fails: a register request whose descriptor
    is the empty array is not rejected; the fallback answers 200 and
    stores the record with its empty descriptor. *)
Lemma postRegister_accepts_empty_descriptor :
  status (snd (postRegister 1000 (jsonBody (Some (JStr "Alice")) (Some (JArr []))) memoryServer))
    = 200%Z
  /\ map faceDescriptor
       (inMemoryFaces
          (fst (postRegister 1000 (jsonBody (Some (JStr "Alice")) (Some (JArr []))) memoryServer)))
     = [JArr []].
Proof. split; reflexivity. Qed.

Lemma postRegister_rejects_empty_name :
  postRegister 1000 (jsonBody (Some (JStr "")) (Some (JArr [JNum 1]))) memoryServer
  = (memoryServer, Failure 400 "Name and face descriptor are required").
Proof. reflexivity. Qed.

(** C7, the claim as worded fails: the database is connected, the
    driver's call raises (the connection no longer answers), and the
    delete is answered 500 with [success: false]. *)
Lemma deleteFace_driver_error_reports_failure :
  readyState (lostServer (Name := json) (Desc := json)) = 1%Z
  /\ success (snd (deleteFace "no-such-id" (lostServer (Name := json) (Desc := json)))) = false
  /\ status (snd (deleteFace "no-such-id" (lostServer (Name := json) (Desc := json)))) = 500%Z.
Proof. repeat split. Qed.

(** An id that no stored face carries, on either backend; and on the
    durable one a string that is no id at all, where the cast raises
    and the handler answers 500. *)
Example deleteFace_unknown_id :
  deleteFace "00000000000000000000002a" (twoFaces memoryServer)
    = (twoFaces memoryServer, Deleted "Face deleted successfully (in-memory)")
  /\ deleteFace "00000000000000000000002a" (twoFaces durableServer)
    = (twoFaces durableServer, Deleted "Face deleted successfully")
  /\ map id (docs (collection (twoFaces durableServer)))
     = ["000000000000000000000001"; "000000000000000000000002"]
  /\ deleteFace "no-such-id" (twoFaces durableServer)
    = (twoFaces durableServer, Failure 500 "Cast to ObjectId failed").
Proof.
  split; [vm_compute; reflexivity |]. split; [vm_compute; reflexivity |].
  split; vm_compute; reflexivity.
Qed.

(** C8, the code at the failing input: with the fallback active, two
    faces registered at 1000 and then 2000 are listed in insertion
    order, oldest first, while the durable branch lists the same two
    newest first. Neither listing carries a descriptor. *)
Theorem getFaces_fallback_oldest_first :
  map e_timestamp (listed (snd (getFaces (Some "default_user") (twoFaces memoryServer))))
    = [1000; 2000]%Z
  /\ newestFirst
       (map e_timestamp (listed (snd (getFaces (Some "default_user") (twoFaces memoryServer)))))
     = false
  /\ map e_timestamp (listed (snd (getFaces (Some "default_user") (twoFaces durableServer))))
     = [2000; 1000]%Z.
Proof. repeat split; reflexivity. Qed.

End StoreProps.

(* ------------------------------------------------------------------ *)
(** ** Descriptor matcher *)

Module MatcherProps.
Import Matcher Examples.
Local Open Scope string_scope.
Local Open Scope Q_scope.

Lemma Qlt_bool_true (a b : Q) : Qlt_bool a b = true -> a < b.
Proof.
  unfold Qlt_bool. intros E. apply negb_true_iff in E.
  apply Qnot_le_lt. intros L. apply Qle_bool_iff in L. congruence.
Qed.

Lemma Qlt_bool_false (a b : Q) : Qlt_bool a b = false -> b <= a.
Proof.
  unfold Qlt_bool. intros E. apply negb_false_iff in E. now apply Qle_bool_iff.
Qed.

Lemma squaredDistance_nonneg (a b : descriptor) : 0 <= squaredDistance a b.
Proof.
  revert b. induction a as [| x a IH]; intros [| y b]; cbn; try apply Qle_refl.
  rewrite <- (Qplus_0_r 0). apply Qplus_le_compat; [| apply IH].
  destruct (Qlt_le_dec (x - y) 0) as [N | P].
  - setoid_replace ((x - y) * (x - y)) with ((- (x - y)) * (- (x - y))) by ring.
    apply Qmult_le_0_compat; apply (Qopp_le_compat (x - y) 0); apply Qlt_le_weak, N.
  - apply Qmult_le_0_compat; exact P.
Qed.

Lemma squaredDistance_self (a : descriptor) : squaredDistance a a == 0.
Proof.
  induction a as [| x a IH]; cbn; [reflexivity |]. rewrite IH. ring.
Qed.

(** The scan keeps the running best or takes a reference of the list,
    never ends above the running best, and ends at or below every
    reference it has seen. *)
Lemma closest_scan (probe : descriptor) (refs : list (string * descriptor)) :
  forall best,
    (closest probe best refs = best
     \/ exists l d, In (l, d) refs /\ closest probe best refs = (l, squaredDistance probe d))
    /\ snd (closest probe best refs) <= snd best
    /\ (forall l d, In (l, d) refs ->
          snd (closest probe best refs) <= squaredDistance probe d).
Proof.
  induction refs as [| [l0 d0] rest IH]; intros best; cbn [closest].
  - split; [left; reflexivity |]. split; [apply Qle_refl |]. intros l d [].
  - set (dist := squaredDistance probe d0).
    destruct (Qlt_bool dist (snd best)) eqn:C.
    + destruct (IH (l0, dist)) as (Hsrc & Hle & Hmin). cbn [snd] in Hle.
      split; [| split].
      * right. destruct Hsrc as [E | (l & d & Hin & E)].
        -- exists l0, d0. split; [left; reflexivity | exact E].
        -- exists l, d. split; [right; exact Hin | exact E].
      * apply Qle_trans with dist; [exact Hle |].
        apply Qlt_le_weak, Qlt_bool_true, C.
      * intros l d [E | Hin]; [inversion E; subst; exact Hle | eapply Hmin; exact Hin].
    + destruct (IH best) as (Hsrc & Hle & Hmin).
      split; [| split].
      * destruct Hsrc as [E | (l & d & Hin & E)]; [left; exact E |].
        right. exists l, d. split; [right; exact Hin | exact E].
      * exact Hle.
      * intros l d [E | Hin]; [| eapply Hmin; exact Hin].
        inversion E; subst. apply Qle_trans with (snd best); [exact Hle |].
        apply Qlt_bool_false, C.
Qed.

(** With at least one reference, [matchDescriptor] answers a reference
    of the matcher that no other reference is closer than. *)
Lemma matchDescriptor_minimum (m : FaceMatcher) (probe : descriptor) :
  references m <> [] ->
  exists l d, In (l, d) (references m)
    /\ (forall l' d', In (l', d') (references m) ->
          squaredDistance probe d <= squaredDistance probe d')
    /\ matchDescriptor m probe = Some (l, squaredDistance probe d).
Proof.
  unfold matchDescriptor. intros Hne.
  destruct (references m) as [| [l0 d0] rest]; [contradiction |].
  destruct (closest_scan probe rest (l0, squaredDistance probe d0)) as (Hsrc & Hle & Hmin).
  cbn [snd] in Hle.
  destruct Hsrc as [E | (l & d & Hin & E)].
  - exists l0, d0. rewrite E in *. cbn [snd] in *.
    split; [left; reflexivity |]. split; [| reflexivity].
    intros l' d' [E' | Hin]; [inversion E'; subst; apply Qle_refl | eapply Hmin; exact Hin].
  - exists l, d. rewrite E in *. cbn [snd] in *.
    split; [right; exact Hin |]. split; [| reflexivity].
    intros l' d' [E' | Hin']; [inversion E'; subst; exact Hle | eapply Hmin; exact Hin'].
Qed.

Lemma findBestMatch_minimum (m : FaceMatcher) (probe : descriptor) :
  references m <> [] ->
  exists l d, In (l, d) (references m)
    /\ (forall l' d', In (l', d') (references m) ->
          squaredDistance probe d <= squaredDistance probe d')
    /\ findBestMatch m probe
       = (if withinThreshold m (squaredDistance probe d) then l else "unknown",
          Some (squaredDistance probe d)).
Proof.
  intros Hne. destruct (matchDescriptor_minimum m probe Hne) as (l & d & Hin & Hmin & E).
  exists l, d. split; [exact Hin |]. split; [exact Hmin |].
  unfold findBestMatch. rewrite E. reflexivity.
Qed.

Lemma euclideanDistance_le (p a b : descriptor) :
  squaredDistance p a <= squaredDistance p b ->
  (euclideanDistance p a <= euclideanDistance p b)%R.
Proof.
  intros L. unfold euclideanDistance. apply sqrt_le_1_alt, Qle_Rle, L.
Qed.

(** At most 0.6 on the distance is at most 0.36 on its square. *)
Lemma euclideanDistance_threshold (p a : descriptor) :
  squaredDistance p a <= (6 # 10) * (6 # 10) <-> (euclideanDistance p a <= 6 / 10)%R.
Proof.
  unfold euclideanDistance.
  assert (T : Q2R ((6 # 10) * (6 # 10)) = (6 / 10 * (6 / 10))%R).
  { rewrite Q2R_mult. unfold Q2R. cbn. lra. }
  assert (P : (0 <= Q2R (squaredDistance p a))%R).
  { replace 0%R with (Q2R 0) by (unfold Q2R; cbn; lra).
    apply Qle_Rle, squaredDistance_nonneg. }
  split.
  - intros L. apply Qle_Rle in L. rewrite T in L.
    replace (6 / 10)%R with (sqrt (6 / 10 * (6 / 10))) by (apply sqrt_square; lra).
    apply sqrt_le_1_alt, L.
  - intros L. apply Rle_Qle. rewrite T.
    rewrite <- (sqrt_sqrt _ P).
    pose proof (sqrt_pos (Q2R (squaredDistance p a))) as S.
    apply Rmult_le_compat; assumption.
Qed.

(** C1. For every probe and every matcher with threshold 0.6 and at
    least one reference descriptor, [findBestMatch] finds a reference
    whose Euclidean distance to the probe is the minimum over all
    references of all labels, answers that distance (as its square),
    and answers the reference's label if the distance is at most the
    threshold and ["unknown"] otherwise. *)
Theorem findBestMatch_closest_or_unknown (m : FaceMatcher) (probe : descriptor) :
  distanceThreshold m = 6 # 10 ->
  references m <> [] ->
  exists l d, In (l, d) (references m)
    /\ (forall l' d', In (l', d') (references m) ->
          (euclideanDistance probe d <= euclideanDistance probe d')%R)
    /\ snd (findBestMatch m probe) = Some (squaredDistance probe d)
    /\ ((euclideanDistance probe d <= 6 / 10)%R -> fst (findBestMatch m probe) = l)
    /\ ((6 / 10 < euclideanDistance probe d)%R -> fst (findBestMatch m probe) = "unknown").
Proof.
  intros Ht Hne.
  destruct (findBestMatch_minimum m probe Hne) as (l & d & Hin & Hmin & E).
  exists l, d. rewrite E. unfold withinThreshold. rewrite Ht. cbn [fst snd].
  split; [exact Hin |]. split; [| split; [reflexivity | split]].
  - intros l' d' Hin'. apply euclideanDistance_le, (Hmin l' d' Hin').
  - intros Hle. apply euclideanDistance_threshold, Qle_bool_iff in Hle.
    rewrite Hle. reflexivity.
  - intros Hgt. destruct (Qle_bool _ _) eqn:B; [| reflexivity].
    apply Qle_bool_iff, euclideanDistance_threshold in B. lra.
Qed.

Lemma findBestMatch_closest_or_unknown_witness :
  distanceThreshold aliceAndBob = 6 # 10
  /\ references aliceAndBob <> []
  /\ exists l d, In (l, d) (references aliceAndBob)
       /\ (forall l' d', In (l', d') (references aliceAndBob) ->
             (euclideanDistance nearAlice d <= euclideanDistance nearAlice d')%R)
       /\ snd (findBestMatch aliceAndBob nearAlice) = Some (squaredDistance nearAlice d)
       /\ ((euclideanDistance nearAlice d <= 6 / 10)%R ->
             fst (findBestMatch aliceAndBob nearAlice) = l)
       /\ ((6 / 10 < euclideanDistance nearAlice d)%R ->
             fst (findBestMatch aliceAndBob nearAlice) = "unknown").
Proof.
  split; [reflexivity |]. split; [discriminate |].
  apply (findBestMatch_closest_or_unknown aliceAndBob nearAlice); [reflexivity | discriminate].
Defined.

(** The scenario of the design document: Alice registered with
    [0,0,0], probe [0.01,0,0], threshold 0.6. *)
Example findBestMatch_near_is_alice :
  fst (findBestMatch aliceAndBob nearAlice) = "Alice".
Proof. reflexivity. Qed.

(** A probe farther than the threshold from the only reference. *)
Example findBestMatch_far_is_unknown :
  fst (findBestMatch
         {| labeledDescriptors := [{| label := "Alice"; descriptors := [[0; 0; 0]] |}];
            distanceThreshold := 6 # 10 |}
         [1; 0; 0]) = "unknown".
Proof. reflexivity. Qed.

(** The label that comes back is the sentinel or a label of the
    matcher. *)
Lemma findBestMatch_label (m : FaceMatcher) (probe : descriptor) :
  fst (findBestMatch m probe) = "unknown"
  \/ exists d, In (fst (findBestMatch m probe), d) (references m).
Proof.
  destruct (references m) as [| r rest] eqn:R.
  - left. unfold findBestMatch, matchDescriptor. rewrite R. reflexivity.
  - assert (Hne : references m <> []) by (rewrite R; discriminate).
    destruct (findBestMatch_minimum m probe Hne) as (l & d & Hin & _ & E).
    rewrite E. cbn [fst]. destruct (withinThreshold m _); [| left; reflexivity].
    right. exists d. rewrite <- R. exact Hin.
Qed.

(** A probe that is one of the references is matched to a label it is
    stored under, when every reference under another label is at a
    positive distance from it. *)
Lemma findBestMatch_own_descriptor (lds : list LabeledFaceDescriptors) (l : string) (d : descriptor) :
  let m := {| labeledDescriptors := lds; distanceThreshold := 6 # 10 |} in
  In (l, d) (references m) ->
  (forall l' d', In (l', d') (references m) -> l' <> l -> 0 < squaredDistance d d') ->
  exists q, findBestMatch m d = (l, Some q) /\ q == 0.
Proof.
  intros m Hin Hfar.
  assert (Hne : references m <> []) by (intros E; rewrite E in Hin; exact Hin).
  destruct (findBestMatch_minimum m d Hne) as (l1 & d1 & Hin1 & Hmin & E).
  assert (Hzero : squaredDistance d d1 == 0).
  { apply Qle_antisym; [| apply squaredDistance_nonneg].
    rewrite <- (squaredDistance_self d). exact (Hmin l d Hin). }
  assert (Hl : l1 = l).
  { destruct (string_dec l1 l) as [Y | N]; [exact Y |]. exfalso.
    pose proof (Hfar l1 d1 Hin1 N) as Hpos. rewrite Hzero in Hpos.
    exact (Qlt_irrefl 0 Hpos). }
  subst l1. exists (squaredDistance d d1). split; [| exact Hzero].
  rewrite E. unfold withinThreshold.
  assert (B : Qle_bool (squaredDistance d d1) (distanceThreshold m * distanceThreshold m) = true).
  { apply Qle_bool_iff. rewrite Hzero. cbn. discriminate. }
  rewrite B. reflexivity.
Qed.

End MatcherProps.

(* ------------------------------------------------------------------ *)
(** ** Face pipeline controller *)

Module ControllerProps.
Import Js Store Matcher Controller MatcherProps.
Local Open Scope string_scope.

Lemma references_labeled (ds : list (descriptorEntry string descriptor)) :
  references (newFaceMatcher (labeled ds)) = map (fun e => (d_name e, d_descriptor e)) ds.
Proof.
  unfold references, newFaceMatcher, labeled. cbn [Matcher.labeledDescriptors].
  induction ds as [| e ds IH]; cbn; [reflexivity |]. now rewrite IH.
Qed.

Section Generic.

Context {Coll : Type} `{Driver string descriptor Coll}.

Lemma fetch_reaches (h : server string descriptor Coll -> server string descriptor Coll * Response)
    (w : world Coll) s r :
  net w = [] -> h (backend w) = (s, r) ->
  fetch h w = ({| backend := s; net := []; clock := clock w; ui := ui w |}, Some r).
Proof.
  intros O E. unfold fetch. rewrite O, E. reflexivity.
Qed.

Lemma matcher_onUi_setIsLoading (b : bool) (w : world Coll) :
  faceMatcher (ui (onUi (setIsLoading b) w)) = faceMatcher (ui w).
Proof. reflexivity. Qed.

Lemma backend_onUi (f : controller -> controller) (w : world Coll) :
  backend (onUi f w) = backend w.
Proof. reflexivity. Qed.

Lemma net_onUi (f : controller -> controller) (w : world Coll) :
  net (onUi f w) = net w.
Proof. reflexivity. Qed.

Lemma loadFaceDescriptors_reloads (w : world Coll) s ds :
  net w = [] ->
  getDescriptors (Some "default_user") (backend w) = (s, DescriptorList ds) ->
  faceMatcher (ui (loadFaceDescriptors w)) = reloaded ds (faceMatcher (ui w))
  /\ backend (loadFaceDescriptors w) = s
  /\ net (loadFaceDescriptors w) = [].
Proof.
  intros O E. unfold loadFaceDescriptors. rewrite (fetch_reaches _ w s _ O E).
  destruct ds as [| e ds]; cbn; auto.
Qed.

Lemma loadRegisteredFaces_reloads (w : world Coll) s2 fs s3 ds :
  net w = [] ->
  getFaces (Some "default_user") (backend w) = (s2, FaceList fs) ->
  getDescriptors (Some "default_user") s2 = (s3, DescriptorList ds) ->
  faceMatcher (ui (loadRegisteredFaces w)) = reloaded ds (faceMatcher (ui w))
  /\ backend (loadRegisteredFaces w) = s3
  /\ net (loadRegisteredFaces w) = [].
Proof.
  intros O E2 E3. unfold loadRegisteredFaces.
  rewrite (fetch_reaches _ (onUi (setIsLoading true) w) s2 (FaceList fs) O E2).
  match goal with |- context [loadFaceDescriptors ?x] => set (w2 := x) end.
  destruct (loadFaceDescriptors_reloads w2 s3 ds eq_refl E3) as (M & B & O').
  rewrite matcher_onUi_setIsLoading, backend_onUi, net_onUi, M, B, O'. auto.
Qed.

Lemma deleteFace_reloads (fid : string) (w : world Coll) s1 r1 s2 fs s3 ds :
  net w = [] ->
  Store.deleteFace fid (backend w) = (s1, r1) -> success r1 = true ->
  getFaces (Some "default_user") s1 = (s2, FaceList fs) ->
  getDescriptors (Some "default_user") s2 = (s3, DescriptorList ds) ->
  faceMatcher (ui (deleteFace fid w)) = reloaded ds (faceMatcher (ui w))
  /\ backend (deleteFace fid w) = s3.
Proof.
  intros O E1 S1 E2 E3. unfold deleteFace.
  rewrite (fetch_reaches _ (onUi (setIsLoading true) w) s1 r1 O E1). rewrite S1.
  match goal with |- context [loadRegisteredFaces ?x] => set (w2 := x) end.
  destruct (loadRegisteredFaces_reloads w2 s2 fs s3 ds eq_refl E2 E3) as (M & B & _).
  rewrite matcher_onUi_setIsLoading, backend_onUi, M, B. auto.
Qed.

Lemma registerFace_reloads (d : descriptor) (w : world Coll) s1 r1 s2 fs s3 ds :
  net w = [] ->
  isBlank (newPersonName (ui w)) = false ->
  videoRef (ui w) = true -> modelsLoaded (ui w) = true ->
  postRegister (clock w)
    {| b_name := Some (newPersonName (ui w)); b_faceDescriptor := Some d;
       b_userId := Some "default_user"; b_imageUrl := None |} (backend w) = (s1, r1) ->
  success r1 = true ->
  getFaces (Some "default_user") s1 = (s2, FaceList fs) ->
  getDescriptors (Some "default_user") s2 = (s3, DescriptorList ds) ->
  faceMatcher (ui (registerFace (FaceFound d) w)) = reloaded ds (faceMatcher (ui w))
  /\ backend (registerFace (FaceFound d) w) = s3.
Proof.
  intros O Hn Hv Hm E1 S1 E2 E3. unfold registerFace. rewrite Hn, Hv, Hm. cbn [negb orb].
  match goal with |- context [fetch ?h ?x] => rewrite (fetch_reaches h x s1 r1 O E1) end.
  rewrite S1.
  match goal with |- context [loadRegisteredFaces ?x] => set (w2 := x) end.
  destruct (loadRegisteredFaces_reloads w2 s2 fs s3 ds eq_refl E2 E3) as (M & B & _).
  rewrite matcher_onUi_setIsLoading, backend_onUi, M, B. auto.
Qed.

Lemma filterByUser_default (mem : list Face) :
  filterByUser (Some "default_user") mem = tenantFaces mem.
Proof. reflexivity. Qed.

Lemma getFaces_fallback (s : server string descriptor Coll) :
  readyState s <> 1%Z ->
  getFaces (Some "default_user") s = (s, FaceList (map entryOf (tenantFaces (inMemoryFaces s)))).
Proof.
  intros R. unfold getFaces. apply Z.eqb_neq in R. rewrite R, filterByUser_default. reflexivity.
Qed.

Lemma getDescriptors_fallback (s : server string descriptor Coll) :
  readyState s <> 1%Z ->
  getDescriptors (Some "default_user") s
  = (s, DescriptorList (map descriptorOf (tenantFaces (inMemoryFaces s)))).
Proof.
  intros R. unfold getDescriptors. apply Z.eqb_neq in R. rewrite R, filterByUser_default.
  reflexivity.
Qed.

Lemma deleteFace_fallback (fid : string) (s : server string descriptor Coll) :
  readyState s <> 1%Z ->
  Store.deleteFace fid s
  = (setInMemoryFaces s (filter (fun f => negb (String.eqb (id f) fid)) (inMemoryFaces s)),
     Deleted "Face deleted successfully (in-memory)").
Proof.
  intros R. unfold Store.deleteFace. apply Z.eqb_neq in R. rewrite R. reflexivity.
Qed.

Lemma isBlank_false_truthy (n : string) : isBlank n = false -> truthy n = true.
Proof.
  destruct n; [discriminate | reflexivity].
Qed.

Lemma postRegister_fallback (n : string) (d : descriptor) (now : Z)
    (s : server string descriptor Coll) :
  readyState s <> 1%Z -> isBlank n = false ->
  postRegister now {| b_name := Some n; b_faceDescriptor := Some d;
                      b_userId := Some "default_user"; b_imageUrl := None |} s
  = (setInMemoryFaces s (inMemoryFaces s ++ [registered n d now])%list,
     Registered "Face registered successfully (in-memory)" (toString now) n now).
Proof.
  intros R Hn. unfold postRegister. cbn [b_name b_faceDescriptor b_userId b_imageUrl].
  rewrite (isBlank_false_truthy n Hn). apply Z.eqb_neq in R. rewrite R. reflexivity.
Qed.

Lemma tenantFaces_app (a b : list Face) :
  tenantFaces (a ++ b)%list = (tenantFaces a ++ tenantFaces b)%list.
Proof. apply filter_app. Qed.

(** The label [recognize] answers with a matcher rebuilt from the
    faces [fs] is the sentinel or the name of one of them. *)
Lemma recognize_rebuilt_label (fs : list Face) (probe : descriptor) :
  fst (findBestMatch (newFaceMatcher (labeled (map descriptorOf fs))) probe) = "unknown"
  \/ exists g, In g fs
       /\ name g = fst (findBestMatch (newFaceMatcher (labeled (map descriptorOf fs))) probe).
Proof.
  destruct (findBestMatch_label (newFaceMatcher (labeled (map descriptorOf fs))) probe)
    as [U | [d Hin]]; [left; exact U | right].
  rewrite references_labeled, map_map in Hin. apply in_map_iff in Hin.
  destruct Hin as (g & E & Hg). exists g. split; [exact Hg |].
  cbn in E. congruence.
Qed.

(** Where the rebuild does happen.  With the fallback active and every
    request reaching the server, once [deleteFace(id)] has returned and
    a face of the tenant with another id is still stored, the matcher
    in the state is built from the faces that are left: the
    [detectFaces] of a render made from then on answers ["unknown"] or
    the name of a face that is still stored under another id, and the
    store holds no face with the deleted id. *)
Lemma deleteFace_then_match (fid : string) (w : world Coll) (probe : descriptor) :
  net w = [] ->
  readyState (backend w) <> 1%Z ->
  (exists g, In g (inMemoryFaces (backend w)) /\ userId g = "default_user" /\ id g <> fid) ->
  (exists lbl q, recognize (ui (deleteFace fid w)) probe = Some (lbl, q)
     /\ (lbl = "unknown"
         \/ exists g, In g (inMemoryFaces (backend w))
              /\ id g <> fid /\ userId g = "default_user" /\ name g = lbl))
  /\ (forall f, In f (inMemoryFaces (backend (deleteFace fid w))) -> id f <> fid).
Proof.
  intros O R (g0 & Hg0 & Hu0 & Hi0).
  set (s1 := setInMemoryFaces (backend w)
               (filter (fun f => negb (String.eqb (id f) fid)) (inMemoryFaces (backend w)))).
  assert (R1 : readyState s1 <> 1%Z) by exact R.
  destruct (deleteFace_reloads fid w s1 _ s1 _ s1 _ O
              (deleteFace_fallback fid (backend w) R) eq_refl
              (getFaces_fallback s1 R1) (getDescriptors_fallback s1 R1)) as (M & B).
  set (kept := tenantFaces (inMemoryFaces s1)) in *.
  assert (Hkept : forall g, In g kept ->
            In g (inMemoryFaces (backend w)) /\ id g <> fid /\ userId g = "default_user").
  { intros g Hg. unfold kept, tenantFaces, s1 in Hg. cbn [inMemoryFaces setInMemoryFaces] in Hg.
    apply filter_In in Hg. destruct Hg as (Hg & Hu). apply filter_In in Hg.
    destruct Hg as (Hg & Hi). apply String.eqb_eq in Hu. apply negb_true_iff in Hi.
    apply String.eqb_neq in Hi. auto. }
  assert (Hne : exists g ks, kept = g :: ks).
  { assert (Hin : In g0 kept).
    { unfold kept, tenantFaces, s1. cbn [inMemoryFaces setInMemoryFaces].
      apply filter_In. split; [apply filter_In; split; [exact Hg0 |] |].
      - apply negb_true_iff, String.eqb_neq, Hi0.
      - apply String.eqb_eq, Hu0. }
    destruct kept as [| g ks]; [destruct Hin | eauto]. }
  split.
  - unfold recognize. rewrite M.
    destruct Hne as (g & ks & Ek).
    assert (Er : reloaded (map descriptorOf kept) (faceMatcher (ui w))
                 = Some (newFaceMatcher (labeled (map descriptorOf kept))))
      by (rewrite Ek; reflexivity).
    rewrite Er. cbn [option_map].
    destruct (findBestMatch (newFaceMatcher (labeled (map descriptorOf kept))) probe)
      as [lbl q] eqn:E.
    exists lbl, q. split; [reflexivity |].
    destruct (recognize_rebuilt_label kept probe) as [U | (g' & Hg' & En)];
      rewrite E in *; cbn [fst] in *; [left; exact U | right].
    exists g'. destruct (Hkept g' Hg') as (? & ? & ?). auto.
  - rewrite B. intros f Hf. unfold s1 in Hf. cbn [inMemoryFaces setInMemoryFaces] in Hf.
    apply filter_In in Hf. destruct Hf as (_ & Hi).
    apply negb_true_iff, String.eqb_neq in Hi. exact Hi.
Qed.

(** The matcher in the state after a registration.  With the fallback
    active and every request reaching the server, when [registerFace]
    returns the state holds the matcher built from the tenant's full
    list, the new face last; and the [detectFaces] of a render made
    from then on answers the name just registered on the descriptor
    just registered, provided every stored face of the tenant with
    another name is at a positive distance from that descriptor. *)
Lemma registerFace_then_match (d : descriptor) (w : world Coll) :
  net w = [] ->
  readyState (backend w) <> 1%Z ->
  isBlank (newPersonName (ui w)) = false ->
  videoRef (ui w) = true ->
  modelsLoaded (ui w) = true ->
  faceMatcher (ui (registerFace (FaceFound d) w))
  = Some (newFaceMatcher (labeled (map descriptorOf
            (tenantFaces (inMemoryFaces (backend w)
                          ++ [registered (newPersonName (ui w)) d (clock w)])%list))))
  /\ ((forall g, In g (inMemoryFaces (backend w)) -> userId g = "default_user" ->
          name g <> newPersonName (ui w) -> (0 < squaredDistance d (faceDescriptor g))%Q) ->
      exists q, recognize (ui (registerFace (FaceFound d) w)) d
                = Some (newPersonName (ui w), Some q) /\ (q == 0)%Q).
Proof.
  intros O R Hn Hv Hm.
  set (n := newPersonName (ui w)) in *.
  set (s1 := setInMemoryFaces (backend w)
               (inMemoryFaces (backend w) ++ [registered n d (clock w)])%list).
  assert (R1 : readyState s1 <> 1%Z) by exact R.
  destruct (registerFace_reloads d w s1 _ s1 _ s1 _ O Hn Hv Hm
              (postRegister_fallback n d (clock w) (backend w) R Hn) eq_refl
              (getFaces_fallback s1 R1) (getDescriptors_fallback s1 R1)) as (M & _).
  set (kept := tenantFaces (inMemoryFaces s1)) in *.
  assert (Ek : kept = (tenantFaces (inMemoryFaces (backend w)) ++ [registered n d (clock w)])%list).
  { unfold kept, s1. cbn [inMemoryFaces setInMemoryFaces]. rewrite tenantFaces_app. reflexivity. }
  assert (Er : reloaded (map descriptorOf kept) (faceMatcher (ui w))
               = Some (newFaceMatcher (labeled (map descriptorOf kept)))).
  { rewrite Ek. destruct (tenantFaces (inMemoryFaces (backend w))); reflexivity. }
  rewrite Er in M. split; [exact M |].
  intros Hfar. unfold recognize. rewrite M. cbn [option_map].
  assert (Hown : In (n, d) (references (newFaceMatcher (labeled (map descriptorOf kept))))).
  { rewrite references_labeled, map_map, Ek, map_app. apply in_or_app. right. left. reflexivity. }
  assert (Hothers : forall l' d',
            In (l', d') (references (newFaceMatcher (labeled (map descriptorOf kept)))) ->
            l' <> n -> (0 < squaredDistance d d')%Q).
  { intros l' d' Hin Hl.
    rewrite references_labeled, map_map, Ek, map_app in Hin.
    apply in_app_or in Hin. destruct Hin as [Hin | [E | []]].
    - apply in_map_iff in Hin. destruct Hin as (g & E & Hg). cbn in E. inversion E; subst.
      unfold tenantFaces in Hg. apply filter_In in Hg. destruct Hg as (Hg & Hu).
      apply String.eqb_eq in Hu. apply Hfar; assumption.
    - cbn in E. inversion E; subst. contradiction. }
  destruct (findBestMatch_own_descriptor (labeled (map descriptorOf kept)) n d Hown Hothers)
    as (q & E & Hq).
  exists q. split; [| exact Hq].
  unfold newFaceMatcher. rewrite E. reflexivity.
Qed.

End Generic.

Import ListDriver Examples.

(** Names are not unique: two faces are registered under the name
    Alice; after the first is deleted the second is still stored, and a
    match on their descriptor answers its name. *)
Example deleteFace_same_name_still_matched :
  map (fun f => (id f, name f)) (inMemoryFaces (backend twoAlices))
    = [("1000", "Alice"); ("2000", "Alice")]
  /\ map (fun f => (id f, name f)) (inMemoryFaces (backend (deleteFace "1000" twoAlices)))
     = [("2000", "Alice")]
  /\ option_map fst (recognize (ui (deleteFace "1000" twoAlices)) [0; 0; 0]%Q) = Some "Alice".
Proof.
  split; [vm_compute; reflexivity |]. split; vm_compute; reflexivity.
Qed.

Lemma deleteFace_then_match_witness :
  net twoAlices = []
  /\ readyState (backend twoAlices) <> 1%Z
  /\ (exists lbl q, recognize (ui (deleteFace "1000" twoAlices)) [0; 0; 0]%Q = Some (lbl, q)
        /\ (lbl = "unknown"
            \/ exists g, In g (inMemoryFaces (backend twoAlices))
                 /\ id g <> "1000" /\ userId g = "default_user" /\ name g = lbl))
  /\ (forall f, In f (inMemoryFaces (backend (deleteFace "1000" twoAlices))) -> id f <> "1000").
Proof.
  assert (O : net twoAlices = []) by (vm_compute; reflexivity).
  assert (R : readyState (backend twoAlices) <> 1%Z) by (vm_compute; discriminate).
  split; [exact O |]. split; [exact R |].
  apply (deleteFace_then_match "1000" twoAlices [0; 0; 0]%Q O R).
  exists (registered "Alice" [0; 0; 0]%Q 2000).
  split; [vm_compute; right; left; reflexivity |].
  split; [reflexivity | vm_compute; discriminate].
Defined.

(** A registration whose reload is dropped: Bob is registered with a
    descriptor of his own while the request that reloads the list does
    not reach the server.  The face is stored and announced as
    registered, the state keeps the matcher it had, and a match on
    Bob's descriptor, at distance 1 from the one reference, answers
    ["unknown"]. *)
Example registerFace_reload_dropped :
  map name (inMemoryFaces (backend (registerFace (FaceFound [1; 0; 0]%Q) bobTypedFlaky)))
    = ["Alice"; "Bob"]
  /\ existsb (fun n => String.eqb (fst n) "✅ Bob registered successfully")
       (notices (ui (registerFace (FaceFound [1; 0; 0]%Q) bobTypedFlaky))) = true
  /\ option_map references (faceMatcher (ui (registerFace (FaceFound [1; 0; 0]%Q) bobTypedFlaky)))
     = Some [("Alice", [0; 0; 0]%Q)]
  /\ option_map fst (recognize (ui (registerFace (FaceFound [1; 0; 0]%Q) bobTypedFlaky))
                       [1; 0; 0]%Q)
     = Some "unknown".
Proof.
  split; [vm_compute; reflexivity |]. split; [vm_compute; reflexivity |].
  split; vm_compute; reflexivity.
Qed.

Lemma registerFace_then_match_witness :
  net bobTyped = []
  /\ readyState (backend bobTyped) <> 1%Z
  /\ isBlank (newPersonName (ui bobTyped)) = false
  /\ videoRef (ui bobTyped) = true
  /\ modelsLoaded (ui bobTyped) = true
  /\ (forall g, In g (inMemoryFaces (backend bobTyped)) -> userId g = "default_user" ->
        name g <> newPersonName (ui bobTyped) ->
        (0 < squaredDistance [1; 0; 0]%Q (faceDescriptor g))%Q)
  /\ exists q, recognize (ui (registerFace (FaceFound [1; 0; 0]%Q) bobTyped)) [1; 0; 0]%Q
               = Some (newPersonName (ui bobTyped), Some q) /\ (q == 0)%Q.
Proof.
  assert (O : net bobTyped = []) by (vm_compute; reflexivity).
  assert (R : readyState (backend bobTyped) <> 1%Z) by (vm_compute; discriminate).
  assert (Hn : isBlank (newPersonName (ui bobTyped)) = false) by (vm_compute; reflexivity).
  assert (Hv : videoRef (ui bobTyped) = true) by (vm_compute; reflexivity).
  assert (Hm : modelsLoaded (ui bobTyped) = true) by (vm_compute; reflexivity).
  assert (Hfar : forall g, In g (inMemoryFaces (backend bobTyped)) -> userId g = "default_user" ->
            name g <> newPersonName (ui bobTyped) ->
            (0 < squaredDistance [1; 0; 0]%Q (faceDescriptor g))%Q).
  { intros g Hin _ _. vm_compute in Hin. destruct Hin as [E | []]. subst g.
    vm_compute. reflexivity. }
  repeat (split; [assumption |]).
  exact (proj2 (registerFace_then_match [1; 0; 0]%Q bobTyped O R Hn Hv Hm) Hfar).
Defined.

End ControllerProps.

(* ------------------------------------------------------------------ *)
(** ** The running detection against the state *)

Module LiveProps.
Import Js Store Matcher Controller Live MatcherProps ControllerProps.
Local Open Scope string_scope.

Lemma find_app_none {A : Type} (f : A -> bool) (l : list A) (x : A) :
  List.find f l = None -> List.find f (l ++ [x])%list = List.find f [x].
Proof.
  induction l as [| y r IH]; cbn; [reflexivity |].
  destruct (f y); [discriminate | exact IH].
Qed.

Lemma filter_filter_comm {A : Type} (f g : A -> bool) (l : list A) :
  filter f (filter g l) = filter g (filter f l).
Proof.
  induction l as [| x r IH]; cbn; [reflexivity |].
  destruct (f x) eqn:F, (g x) eqn:G; cbn; rewrite ?F, ?G, IH; reflexivity.
Qed.

(** A label a matcher answers, other than the sentinel, is the label
    of one of its entries. *)
Lemma references_label (m : FaceMatcher) (l : string) (d : descriptor) :
  In (l, d) (references m) ->
  exists ld, In ld (Matcher.labeledDescriptors m) /\ label ld = l.
Proof.
  unfold references. intros Hin. apply in_flat_map in Hin.
  destruct Hin as (ld & Hld & Hin). apply in_map_iff in Hin.
  destruct Hin as (d' & E & _). exists ld. split; [exact Hld | congruence].
Qed.

(** The [detectFaces] of a render that holds the matcher of one face
    answers that face's name on that face's descriptor, at distance 0. *)
Lemma recognize_sole_reference (f : Face) (render : controller) :
  faceMatcher render = Some (newFaceMatcher (labeled [descriptorOf f])) ->
  exists q, recognize render (faceDescriptor f) = Some (name f, Some q) /\ (q == 0)%Q.
Proof.
  intros M. unfold recognize. rewrite M. cbn [option_map].
  destruct (findBestMatch_own_descriptor (labeled [descriptorOf f]) (name f) (faceDescriptor f))
    as (q & E & Hq).
  - cbn. left. reflexivity.
  - intros l' d' Hin Hl. cbn in Hin. destruct Hin as [E | []].
    inversion E; subst. contradiction.
  - exists q. split; [| exact Hq]. unfold newFaceMatcher. rewrite E. reflexivity.
Qed.

Section Generic.

Context {Coll : Type} `{Driver string descriptor Coll}.

Lemma armed_act (f : world Coll -> world Coll) (i : nat) (p : page Coll) :
  armed i (act f p) = armed i p.
Proof. reflexivity. Qed.

Lemma armed_startDetection (p : page Coll) :
  armed (nextInterval p) p = None ->
  armed (nextInterval p) (startDetection p) = Some (ui (shown p)).
Proof.
  unfold armed, startDetection. cbn [intervals nextInterval].
  intros N.
  destruct (List.find (fun t => Nat.eqb (fst t) (nextInterval p)) (intervals p)) eqn:F;
    [discriminate N |].
  rewrite (find_app_none _ _ _ F). cbn. rewrite Nat.eqb_refl. reflexivity.
Qed.

(** Deleting the tenant's only face: the reload is answered with an
    empty list, the guard [data.faces.length > 0] skips the rebuild and
    nothing clears the matcher. *)
Lemma deleteFace_last_face (f : Face) (w : world Coll) :
  net w = [] ->
  readyState (backend w) <> 1%Z ->
  tenantFaces (inMemoryFaces (backend w)) = [f] ->
  tenantFaces (inMemoryFaces (backend (deleteFace (id f) w))) = []
  /\ faceMatcher (ui (deleteFace (id f) w)) = faceMatcher (ui w).
Proof.
  intros O R T.
  set (s1 := setInMemoryFaces (backend w)
               (filter (fun g => negb (String.eqb (id g) (id f))) (inMemoryFaces (backend w)))).
  assert (R1 : readyState s1 <> 1%Z) by exact R.
  destruct (deleteFace_reloads (id f) w s1 _ s1 _ s1 _ O
              (deleteFace_fallback (id f) (backend w) R) eq_refl
              (getFaces_fallback s1 R1) (getDescriptors_fallback s1 R1)) as (M & B).
  assert (E : tenantFaces (inMemoryFaces s1) = []).
  { unfold s1, tenantFaces. cbn [inMemoryFaces setInMemoryFaces].
    rewrite filter_filter_comm. fold (tenantFaces (inMemoryFaces (backend w))). rewrite T.
    cbn. rewrite String.eqb_refl. reflexivity. }
  split.
  - rewrite B. exact E.
  - rewrite M, E. reflexivity.
Qed.

(** C2, the code where the claim fails.  The deleted face was the
    tenant's last one, the fallback is active and every request is
    answered.  When [deleteFace(id)] has returned, the store holds no
    face of the tenant, yet the state holds the matcher it held before;
    a detection that is started after the delete answers the deleted
    face's name on the deleted face's descriptor, at distance 0, and so
    does a detection that was started while that matcher was in the
    state and is still running. *)
Theorem deleteFace_last_face_still_matched (f : Face) (p : page Coll) :
  net (shown p) = [] ->
  readyState (backend (shown p)) <> 1%Z ->
  tenantFaces (inMemoryFaces (backend (shown p))) = [f] ->
  faceMatcher (ui (shown p)) = Some (newFaceMatcher (labeled [descriptorOf f])) ->
  armed (nextInterval p) p = None ->
  tenantFaces (inMemoryFaces (backend (shown (act (deleteFace (id f)) p)))) = []
  /\ faceMatcher (ui (shown (act (deleteFace (id f)) p))) = faceMatcher (ui (shown p))
  /\ (exists q, intervalFires (nextInterval p) (faceDescriptor f)
                  (startDetection (act (deleteFace (id f)) p))
                = Some (Some (name f, Some q)) /\ (q == 0)%Q)
  /\ (forall i render, armed i p = Some render ->
        faceMatcher render = faceMatcher (ui (shown p)) ->
        exists q, intervalFires i (faceDescriptor f) (act (deleteFace (id f)) p)
                  = Some (Some (name f, Some q)) /\ (q == 0)%Q).
Proof.
  intros O R T M N.
  destruct (deleteFace_last_face f (shown p) O R T) as (E & K).
  split; [exact E |]. split; [exact K |]. split.
  - unfold intervalFires.
    change (nextInterval p) with (nextInterval (act (deleteFace (id f)) p)).
    rewrite armed_startDetection by exact N. cbn [option_map shown act].
    destruct (recognize_sole_reference f (ui (deleteFace (id f) (shown p)))) as (q & Eq & Hq);
      [rewrite K; exact M |].
    exists q. rewrite Eq. split; [reflexivity | exact Hq].
  - intros i render A Mr. unfold intervalFires. rewrite armed_act, A. cbn [option_map].
    destruct (recognize_sole_reference f render) as (q & Eq & Hq); [rewrite Mr; exact M |].
    exists q. rewrite Eq. split; [reflexivity | exact Hq].
Qed.

(** C3, the code where the claim fails.  Detection is running: the
    timer [i] calls the [detectFaces] of the render that started it.
    With the fallback active and every request answered, when
    [registerFace] returns the state holds the matcher rebuilt from the
    tenant's full list, the new face last; but the next tick of the
    running detection still answers from the matcher of the render
    that started it.  If detection was started before any matcher was
    set, the face just registered is drawn without a label; if it was
    started with a matcher that has no entry of the new name, the tick
    answers another label. *)
Theorem registerFace_running_detection_stale (d : descriptor) (p : page Coll) (i : nat)
    (render : controller) :
  armed i p = Some render ->
  net (shown p) = [] ->
  readyState (backend (shown p)) <> 1%Z ->
  isBlank (newPersonName (ui (shown p))) = false ->
  videoRef (ui (shown p)) = true ->
  modelsLoaded (ui (shown p)) = true ->
  faceMatcher (ui (shown (act (registerFace (FaceFound d)) p)))
  = Some (newFaceMatcher (labeled (map descriptorOf
            (tenantFaces (inMemoryFaces (backend (shown p))
                          ++ [registered (newPersonName (ui (shown p))) d (clock (shown p))])%list))))
  /\ intervalFires i d (act (registerFace (FaceFound d)) p) = Some (recognize render d)
  /\ (faceMatcher render = None ->
      intervalFires i d (act (registerFace (FaceFound d)) p) = Some None)
  /\ (forall m, faceMatcher render = Some m ->
        (forall ld, In ld (Matcher.labeledDescriptors m) ->
           label ld <> newPersonName (ui (shown p))) ->
        newPersonName (ui (shown p)) <> "unknown" ->
        exists l q, intervalFires i d (act (registerFace (FaceFound d)) p) = Some (Some (l, q))
                    /\ l <> newPersonName (ui (shown p))).
Proof.
  intros A O R Hn Hv Hm.
  assert (T : intervalFires i d (act (registerFace (FaceFound d)) p) = Some (recognize render d)).
  { unfold intervalFires. rewrite armed_act, A. reflexivity. }
  split; [exact (proj1 (registerFace_then_match d (shown p) O R Hn Hv Hm)) |].
  split; [exact T |]. split.
  - intros Mn. rewrite T. unfold recognize. rewrite Mn. reflexivity.
  - intros m Mm Hl Hu. rewrite T. unfold recognize. rewrite Mm. cbn [option_map].
    destruct (findBestMatch m d) as [l q] eqn:E. exists l, q. split; [reflexivity |].
    destruct (findBestMatch_label m d) as [U | (d' & Hin)]; rewrite E in *; cbn [fst] in *.
    + congruence.
    + destruct (references_label m l d' Hin) as (ld & Hld & El). subst l. exact (Hl ld Hld).
Qed.

(** A detection that is started after the registration does see the
    new matcher: its tick answers the name just registered on the
    descriptor just registered, provided every stored face of the
    tenant with another name is at a positive distance from it. *)
Lemma registerFace_then_started_detection (d : descriptor) (p : page Coll) :
  net (shown p) = [] ->
  readyState (backend (shown p)) <> 1%Z ->
  isBlank (newPersonName (ui (shown p))) = false ->
  videoRef (ui (shown p)) = true ->
  modelsLoaded (ui (shown p)) = true ->
  armed (nextInterval p) p = None ->
  (forall g, In g (inMemoryFaces (backend (shown p))) -> userId g = "default_user" ->
     name g <> newPersonName (ui (shown p)) -> (0 < squaredDistance d (faceDescriptor g))%Q) ->
  exists q, intervalFires (nextInterval p) d (startDetection (act (registerFace (FaceFound d)) p))
            = Some (Some (newPersonName (ui (shown p)), Some q)) /\ (q == 0)%Q.
Proof.
  intros O R Hn Hv Hm N Hfar.
  destruct (proj2 (registerFace_then_match d (shown p) O R Hn Hv Hm) Hfar) as (q & E & Hq).
  exists q. split; [| exact Hq].
  unfold intervalFires.
  change (nextInterval p) with (nextInterval (act (registerFace (FaceFound d)) p)).
  rewrite armed_startDetection by exact N. cbn [option_map shown act]. rewrite E. reflexivity.
Qed.

End Generic.

Import ListDriver Examples MoreExamples.

Lemma deleteFace_last_face_still_matched_witness :
  map name (tenantFaces (inMemoryFaces (backend (shown aliceWatched)))) = ["Alice"]
  /\ armed 1 aliceWatched = Some (ui aliceOnly)
  /\ tenantFaces (inMemoryFaces (backend (shown (act (deleteFace "1000") aliceWatched)))) = []
  /\ (exists q, intervalFires 2 [0; 0; 0]%Q (startDetection (act (deleteFace "1000") aliceWatched))
                = Some (Some ("Alice", Some q)) /\ (q == 0)%Q)
  /\ (exists q, intervalFires 1 [0; 0; 0]%Q (act (deleteFace "1000") aliceWatched)
                = Some (Some ("Alice", Some q)) /\ (q == 0)%Q).
Proof.
  assert (O : net (shown aliceWatched) = []) by (vm_compute; reflexivity).
  assert (R : readyState (backend (shown aliceWatched)) <> 1%Z) by (vm_compute; discriminate).
  assert (T : tenantFaces (inMemoryFaces (backend (shown aliceWatched))) = [alice])
    by (vm_compute; reflexivity).
  assert (M : faceMatcher (ui (shown aliceWatched))
              = Some (newFaceMatcher (labeled [descriptorOf alice])))
    by (vm_compute; reflexivity).
  assert (N : armed (nextInterval aliceWatched) aliceWatched = None)
    by (vm_compute; reflexivity).
  assert (A : armed 1 aliceWatched = Some (ui aliceOnly)) by (vm_compute; reflexivity).
  destruct (deleteFace_last_face_still_matched alice aliceWatched O R T M N)
    as (E & _ & After & Before).
  split; [rewrite T; reflexivity |]. split; [exact A |]. split; [exact E |].
  split; [exact After | exact (Before 1%nat (ui aliceOnly) A eq_refl)].
Defined.

Lemma registerFace_running_detection_stale_witness :
  armed 1 watchingAliceTyped = Some readyUi
  /\ option_map references
       (faceMatcher (ui (shown (act (registerFace (FaceFound [0; 0; 0]%Q)) watchingAliceTyped))))
     = Some [("Alice", [0; 0; 0]%Q)]
  /\ intervalFires 1 [0; 0; 0]%Q (act (registerFace (FaceFound [0; 0; 0]%Q)) watchingAliceTyped)
     = Some None.
Proof.
  assert (A : armed 1 watchingAliceTyped = Some readyUi) by (vm_compute; reflexivity).
  assert (O : net (shown watchingAliceTyped) = []) by (vm_compute; reflexivity).
  assert (R : readyState (backend (shown watchingAliceTyped)) <> 1%Z)
    by (vm_compute; discriminate).
  assert (Hn : isBlank (newPersonName (ui (shown watchingAliceTyped))) = false)
    by (vm_compute; reflexivity).
  assert (Hv : videoRef (ui (shown watchingAliceTyped)) = true) by (vm_compute; reflexivity).
  assert (Hm : modelsLoaded (ui (shown watchingAliceTyped)) = true) by (vm_compute; reflexivity).
  destruct (registerFace_running_detection_stale [0; 0; 0]%Q watchingAliceTyped 1%nat readyUi
              A O R Hn Hv Hm) as (S & _ & Stale & _).
  split; [exact A |]. split; [rewrite S; vm_compute; reflexivity |].
  exact (Stale eq_refl).
Defined.

(** The same registration while detection runs with Alice's matcher:
    Bob is registered, the state's matcher lists both, and the running
    detection answers ["unknown"] on Bob's descriptor. *)
Example registerFace_running_detection_unknown :
  option_map references
    (faceMatcher (ui (shown (act (registerFace (FaceFound [1; 0; 0]%Q))
                               (act (typed "Bob" 2000) aliceWatched)))))
  = Some [("Alice", [0; 0; 0]%Q); ("Bob", [1; 0; 0]%Q)]
  /\ option_map (option_map fst)
       (intervalFires 1 [1; 0; 0]%Q
          (act (registerFace (FaceFound [1; 0; 0]%Q)) (act (typed "Bob" 2000) aliceWatched)))
     = Some (Some "unknown").
Proof. split; vm_compute; reflexivity. Qed.

End LiveProps.

(* ------------------------------------------------------------------ *)
(** ** Detection loop *)

Module DetectionProps.
Import Detection.

Section Loop.

Variable comp : component.

Lemma clearDetectionInterval_none (l : loop) :
  intervals l = [] -> clearDetectionInterval l = [].
Proof.
  intros E. unfold clearDetectionInterval. rewrite E. destruct (detectionIntervalRef l); reflexivity.
Qed.

(** With no interval armed, an event other than a start arms none,
    starts no model call and adds no pending call. *)
Lemma step_idle (l : loop) (e : event) :
  intervals l = [] -> isStart e = false ->
  intervals (step comp l e) = []
  /\ ticks (step comp l e) = ticks l
  /\ incl (pending (step comp l e)) (pending l).
Proof.
  intros E S. destruct e as [| | | i | k f]; try discriminate; cbn [step].
  - unfold stopDetection. cbn. rewrite (clearDetectionInterval_none l E).
    repeat split. apply incl_refl.
  - unfold stopWebcam. destruct (streamRef l); cbn.
    + rewrite (clearDetectionInterval_none l E). repeat split. apply incl_refl.
    + repeat split; auto. apply incl_refl.
  - unfold intervalFires. rewrite E. cbn. repeat split; auto. apply incl_refl.
  - unfold modelAnswers. destruct (existsb (Nat.eqb k) (pending l)); cbn.
    + repeat split; auto. intros j Hj. apply filter_In in Hj. tauto.
    + repeat split; auto. apply incl_refl.
Qed.

Lemma run_idle (es : list event) :
  forall l, intervals l = [] -> forallb (fun e => negb (isStart e)) es = true ->
  intervals (run comp l es) = []
  /\ ticks (run comp l es) = ticks l
  /\ incl (pending (run comp l es)) (pending l).
Proof.
  induction es as [| e es IH]; intros l E S; cbn [run fold_left].
  - repeat split; auto. apply incl_refl.
  - cbn [forallb] in S. apply andb_true_iff in S. destruct S as (Se & Ses).
    apply negb_true_iff in Se.
    destruct (step_idle l e E Se) as (E1 & T1 & P1).
    destruct (IH (step comp l e) E1 Ses) as (E2 & T2 & P2).
    unfold run in *. repeat split; [exact E2 | congruence |].
    eapply incl_tran; eassumption.
Qed.

(** C6, as the code has it. Every firing of an armed interval starts
    a model call of its own when the video, the models and the canvas
    are there, whatever is still in flight: no tick is dropped and
    none is queued. The answer of a pending call is put on the canvas
    when it arrives, whatever has been stopped since. What stopping
    does is clear the interval: when the armed interval is the one the
    ref holds, [stopDetection] and [stopWebcam] leave none armed, and
    from a loop with none armed no event other than a new start makes
    a model call. *)
Theorem detection_loop_behaviour (l : loop) :
  (videoRef comp = true -> modelsLoaded comp = true -> canvasRef comp = true ->
   forall i, In i (intervals l) ->
     pending (intervalFires comp i l) = pending l ++ [ticks l]
     /\ ticks (intervalFires comp i l) = S (ticks l))
  /\ (forall k, In k (pending l) ->
        applied (modelAnswers k true l) = applied l ++ [k]
        /\ ~ In k (pending (modelAnswers k true l)))
  /\ (forall i, detectionIntervalRef l = Some i -> intervals l = [i] ->
        intervals (stopDetection l) = []
        /\ (streamRef l = true -> intervals (stopWebcam l) = []))
  /\ (forall es, intervals l = [] -> forallb (fun e => negb (isStart e)) es = true ->
        intervals (run comp l es) = []
        /\ ticks (run comp l es) = ticks l
        /\ incl (pending (run comp l es)) (pending l)).
Proof.
  split; [| split; [| split]].
  - intros V M C i Hi. unfold intervalFires, detectFaces.
    assert (X : existsb (Nat.eqb i) (intervals l) = true).
    { apply existsb_exists. exists i. split; [exact Hi | apply Nat.eqb_refl]. }
    rewrite X, V, M, C. cbn. auto.
  - intros k Hk. unfold modelAnswers.
    assert (X : existsb (Nat.eqb k) (pending l) = true).
    { apply existsb_exists. exists k. split; [exact Hk | apply Nat.eqb_refl]. }
    rewrite X. cbn. split; [reflexivity |].
    intros Hin. apply filter_In in Hin. destruct Hin as (_ & Hneq).
    rewrite Nat.eqb_refl in Hneq. discriminate.
  - intros i Hr Hi.
    assert (X : clearDetectionInterval l = []).
    { unfold clearDetectionInterval. rewrite Hr, Hi. cbn. rewrite Nat.eqb_refl. reflexivity. }
    split.
    + unfold stopDetection. cbn. exact X.
    + intros S. unfold stopWebcam. rewrite S. cbn. exact X.
  - intros es E S. exact (run_idle es l E S).
Qed.

End Loop.

(** C6, the claim as worded fails: the interval fires while the call
    of the first tick is pending and a second call is made, so two are
    in flight; and the answer of a call made before [stopDetection], or
    before [stopWebcam], is put on the canvas after it. *)
Lemma detection_ticks_overlap :
  pending (run mounted cameraOn [StartDetection; IntervalFires 1]) = [0; 1]%nat
  /\ intervals (run mounted cameraOn [StartDetection; StopDetection]) = []
  /\ applied (run mounted cameraOn [StartDetection; StopDetection; ModelAnswers 0 true]) = [0%nat]
  /\ streamRef (run mounted cameraOn [StartDetection; StopWebcam]) = false
  /\ applied (run mounted cameraOn [StartDetection; StopWebcam; ModelAnswers 0 true]) = [0%nat].
Proof. repeat split. Qed.

Lemma detection_loop_behaviour_witness :
  intervals (run mounted cameraOn [StartDetection; StopDetection]) = []
  /\ ticks (run mounted (run mounted cameraOn [StartDetection; StopDetection])
             [IntervalFires 1; ModelAnswers 0 true; StopWebcam; IntervalFires 1])
     = ticks (run mounted cameraOn [StartDetection; StopDetection]).
Proof.
  split; [reflexivity |].
  destruct (detection_loop_behaviour mounted
              (run mounted cameraOn [StartDetection; StopDetection])) as (_ & _ & _ & K).
  exact (proj1 (proj2
           (K [IntervalFires 1; ModelAnswers 0 true; StopWebcam; IntervalFires 1]
              eq_refl eq_refl))).
Defined.

End DetectionProps.

(* ------------------------------------------------------------------ *)
(** ** Notification bridge *)

Module NotifyProps.
Import Notify.
Local Open Scope string_scope.

(** The entry is appended, the message spoken, and the removal is
    scheduled 5000 ms later under the entry's id. *)
Lemma addNotification_schedules (now : Z) (message type : string) (a : app) :
  notifications (addNotification now message type a)
    = (notifications a ++ [{| id := now; message := message; type := type |}])%list
  /\ spoken (addNotification now message type a) = (spoken a ++ [message])%list
  /\ timeouts (addNotification now message type a) = (timeouts a ++ [(now + 5000, now)])%list.
Proof. repeat split. Qed.

(** The timeout removes the entries that carry its id, and only
    those. *)
Lemma timeoutFires_removes_by_id (k : nat) (a : app) (due nid : Z) :
  nth_error (timeouts a) k = Some (due, nid) ->
  forall n, In n (notifications (timeoutFires k a)) <-> In n (notifications a) /\ id n <> nid.
Proof.
  intros E n. unfold timeoutFires. rewrite E. cbn [notifications].
  rewrite filter_In, negb_true_iff, Z.eqb_neq. reflexivity.
Qed.

(** C9, the code at the failing input: two notifications added
    within the same millisecond get the same id; when the first one's
    timeout fires, both are removed, while the second one's own
    timeout is still pending. *)
Theorem addNotification_same_millisecond :
  map message
    (notifications
       (addNotification 1000 "Person removed" "success"
          (addNotification 1000 "Camera stopped" "info" initial)))
    = ["Camera stopped"; "Person removed"]
  /\ notifications
       (timeoutFires 0
          (addNotification 1000 "Person removed" "success"
             (addNotification 1000 "Camera stopped" "info" initial)))
     = []
  /\ timeouts
       (timeoutFires 0
          (addNotification 1000 "Person removed" "success"
             (addNotification 1000 "Camera stopped" "info" initial)))
     = [(6000, 1000)].
Proof. repeat split. Qed.

(** With different clock readings the same run removes the first
    entry alone. *)
Example addNotification_distinct_milliseconds :
  map message
    (notifications
       (timeoutFires 0
          (addNotification 1001 "Person removed" "success"
             (addNotification 1000 "Camera stopped" "info" initial))))
  = ["Person removed"].
Proof. reflexivity. Qed.

End NotifyProps.

(* ================================================================== *)
(** * Further properties of the code *)

(* ------------------------------------------------------------------ *)
(** ** The face endpoints on the in-memory fallback *)

Module StoreExtra.
Import Js Store.
Local Open Scope string_scope.

Section Fallback.

Context {Name Desc : Type} `{JsValue Name} `{JsValue Desc}.
Context {Coll : Type} `{Driver Name Desc Coll}.


Lemma queryOf_truthy (u : string) : truthy u = true -> queryOf (Some u) = Some u.
Proof. intros T. unfold queryOf, orNull. rewrite T. reflexivity. Qed.

Lemma postRegister_fallback_accepts (now : Z) (body : registerBody Name Desc)
    (s : server Name Desc Coll) (n : Name) (d : Desc) :
  readyState s <> 1%Z ->
  b_name body = Some n -> b_faceDescriptor body = Some d ->
  truthy n = true -> truthy d = true ->
  fst (postRegister now body s)
  = setInMemoryFaces s
      (inMemoryFaces s ++
       [{| id := toString now; name := n; faceDescriptor := d;
           userId := orElse (b_userId body) "default_user";
           imageUrl := orNull (b_imageUrl body); timestamp := now |}])%list.
Proof.
  intros R En Ed Tn Td. unfold postRegister. rewrite En, Ed, Tn, Td.
  apply Z.eqb_neq in R. rewrite R. reflexivity.
Qed.

Lemma getDescriptors_fallback_any (q : option string) (s : server Name Desc Coll) :
  readyState s <> 1%Z ->
  getDescriptors q s = (s, DescriptorList (map descriptorOf (filterByUser q (inMemoryFaces s)))).
Proof.
  intros R. unfold getDescriptors. apply Z.eqb_neq in R. rewrite R. reflexivity.
Qed.

Lemma getFaces_fallback_any (q : option string) (s : server Name Desc Coll) :
  readyState s <> 1%Z ->
  getFaces q s = (s, FaceList (map entryOf (filterByUser q (inMemoryFaces s)))).
Proof.
  intros R. unfold getFaces. apply Z.eqb_neq in R. rewrite R. reflexivity.
Qed.



(** X2. Tenants on the fallback: a face stored under one userId never
    shows in the listing asked for another non-empty userId, which
    stays as it was; a listing asked without userId, or with the empty
    one, is not filtered at all and shows the faces of every tenant,
    the new one last. *)
Theorem register_other_tenant_unlisted (now : Z) (body : registerBody Name Desc)
    (s : server Name Desc Coll) (n : Name) (d : Desc) (other : string) :
  readyState s <> 1%Z ->
  b_name body = Some n -> b_faceDescriptor body = Some d ->
  truthy n = true -> truthy d = true ->
  other <> "" -> other <> orElse (b_userId body) "default_user" ->
  snd (getFaces (Some other) (fst (postRegister now body s))) = snd (getFaces (Some other) s)
  /\ snd (getDescriptors (Some other) (fst (postRegister now body s)))
     = snd (getDescriptors (Some other) s)
  /\ (forall q, q = None \/ q = Some "" ->
        snd (getDescriptors q (fst (postRegister now body s)))
        = DescriptorList
            (map descriptorOf (inMemoryFaces s)
             ++ [{| d_id := toString now; d_name := n; d_descriptor := d |}])%list).
Proof.
  intros R En Ed Tn Td Ho Hu.
  rewrite (postRegister_fallback_accepts now body s n d R En Ed Tn Td).
  assert (To : truthy other = true).
  { destruct other; [contradiction | reflexivity]. }
  assert (F : forall l : list (face Name Desc),
            filterByUser (Some other) l = filter (fun f => String.eqb (userId f) other) l).
  { intros l. unfold filterByUser. rewrite (queryOf_truthy other To). reflexivity. }
  assert (N : String.eqb (orElse (b_userId body) "default_user") other = false).
  { apply String.eqb_neq. congruence. }
  repeat split.
  - rewrite !getFaces_fallback_any by exact R. cbn [snd inMemoryFaces setInMemoryFaces].
    rewrite !F, filter_app. cbn [filter userId]. rewrite N, app_nil_r. reflexivity.
  - rewrite !getDescriptors_fallback_any by exact R. cbn [snd inMemoryFaces setInMemoryFaces].
    rewrite !F, filter_app. cbn [filter userId]. rewrite N, app_nil_r. reflexivity.
  - intros q [Eq | Eq]; subst q; rewrite getDescriptors_fallback_any by exact R;
      cbn [snd inMemoryFaces setInMemoryFaces];
      change (filterByUser None) with (fun l : list (face Name Desc) => l);
      change (filterByUser (Some "")) with (fun l : list (face Name Desc) => l);
      cbn beta; rewrite map_app; reflexivity.
Qed.

(** X3. Deleting on the fallback takes out of every listing exactly
    the entries that carry the id and leaves the others in their
    order; deleting the same id again changes nothing more. *)
Theorem deleteFace_listing_frame (fid : string) (q : option string) (s : server Name Desc Coll) :
  readyState s <> 1%Z ->
  (exists before,
      snd (getDescriptors q s) = DescriptorList before
      /\ snd (getDescriptors q (fst (deleteFace fid s)))
         = DescriptorList (filter (fun e => negb (String.eqb (d_id e) fid)) before))
  /\ fst (deleteFace fid (fst (deleteFace fid s))) = fst (deleteFace fid s).
Proof.
  intros R.
  assert (D : forall t : server Name Desc Coll, readyState t <> 1%Z ->
            fst (deleteFace fid t)
            = setInMemoryFaces t
                (filter (fun f => negb (String.eqb (id f) fid)) (inMemoryFaces t))).
  { intros t Rt. unfold deleteFace. apply Z.eqb_neq in Rt. rewrite Rt. reflexivity. }
  split.
  - eexists. split; [rewrite getDescriptors_fallback_any by exact R; reflexivity |].
    rewrite (D s R), getDescriptors_fallback_any by exact R.
    cbn [snd inMemoryFaces setInMemoryFaces]. f_equal.
    unfold filterByUser. destruct (queryOf q) as [u |].
    + induction (inMemoryFaces s) as [| f l IH]; [reflexivity |].
      cbn [filter]. destruct (String.eqb (id f) fid) eqn:I; cbn [negb];
        destruct (String.eqb (userId f) u) eqn:U; cbn [filter map d_id descriptorOf];
        rewrite ?U, ?I; cbn [negb map]; rewrite ?IH; reflexivity.
    + induction (inMemoryFaces s) as [| f l IH]; [reflexivity |].
      cbn [filter map d_id descriptorOf]. destruct (String.eqb (id f) fid); cbn [negb map];
        rewrite IH; reflexivity.
  - rewrite (D s R). rewrite D by exact R.
    cbn [inMemoryFaces setInMemoryFaces]. unfold setInMemoryFaces. cbn. f_equal.
    induction (inMemoryFaces s) as [| f l IH]; [reflexivity |].
    cbn [filter]. destruct (String.eqb (id f) fid) eqn:I; cbn [negb filter];
      rewrite ?I; cbn [negb]; rewrite IH; reflexivity.
Qed.

(** X4. The fallback takes a face's id from the clock: two requests
    accepted at the same clock reading store two faces under one id,
    and one delete of that id removes them both. *)
Theorem same_clock_same_id (now : Z) (b1 b2 : registerBody Name Desc)
    (s : server Name Desc Coll) (n1 n2 : Name) (d1 d2 : Desc) :
  readyState s <> 1%Z ->
  b_name b1 = Some n1 -> b_faceDescriptor b1 = Some d1 -> truthy n1 = true -> truthy d1 = true ->
  b_name b2 = Some n2 -> b_faceDescriptor b2 = Some d2 -> truthy n2 = true -> truthy d2 = true ->
  (exists f1 f2,
      inMemoryFaces (fst (postRegister now b2 (fst (postRegister now b1 s))))
      = (inMemoryFaces s ++ [f1; f2])%list
      /\ name f1 = n1 /\ name f2 = n2 /\ id f1 = toString now /\ id f2 = toString now)
  /\ inMemoryFaces
       (fst (deleteFace (toString now)
               (fst (postRegister now b2 (fst (postRegister now b1 s))))))
     = filter (fun f => negb (String.eqb (id f) (toString now))) (inMemoryFaces s).
Proof.
  intros R E1 F1 T1 U1 E2 F2 T2 U2.
  rewrite (postRegister_fallback_accepts now b1 s n1 d1 R E1 F1 T1 U1).
  match goal with |- context [postRegister now b2 ?t] =>
    rewrite (postRegister_fallback_accepts now b2 t n2 d2 R E2 F2 T2 U2) end.
  cbn [inMemoryFaces setInMemoryFaces]. split.
  - eexists _, _. rewrite <- app_assoc. cbn [app]. repeat split.
  - unfold deleteFace. cbn [readyState setInMemoryFaces].
    apply Z.eqb_neq in R. rewrite R. cbn [fst inMemoryFaces setInMemoryFaces].
    rewrite !filter_app. cbn [filter id]. rewrite String.eqb_refl. cbn [negb].
    rewrite !app_nil_r. reflexivity.
Qed.

(** X5. The two listings never change the server's state, whatever
    the backend and whatever the driver answers, and on the fallback
    they list the same faces in the same order. *)
Theorem listings_read_only (q : option string) (s : server Name Desc Coll) :
  fst (getFaces q s) = s
  /\ fst (getDescriptors q s) = s
  /\ (readyState s <> 1%Z ->
        exists fs ds, snd (getFaces q s) = FaceList fs
          /\ snd (getDescriptors q s) = DescriptorList ds
          /\ map e_id fs = map d_id ds
          /\ map e_name fs = map d_name ds).
Proof.
  split; [| split].
  - unfold getFaces. destruct (readyState s =? 1)%Z; [| reflexivity].
    destruct (findNewestFirst _ _); reflexivity.
  - unfold getDescriptors. destruct (readyState s =? 1)%Z; [| reflexivity].
    destruct (find _ _); reflexivity.
  - intros R. rewrite getFaces_fallback_any, getDescriptors_fallback_any by exact R.
    eexists _, _. split; [reflexivity |]. split; [reflexivity |].
    rewrite !map_map. split; reflexivity.
Qed.

End Fallback.

Import ListDriver Examples.


Lemma register_other_tenant_unlisted_witness :
  snd (getFaces (Some "guest")
         (fst (postRegister 3000 (jsonBody (Some (JStr "Carol")) (Some (JArr [JNum 2])))
                 (twoFaces memoryServer))))
  = snd (getFaces (Some "guest") (twoFaces memoryServer)).
Proof.
  exact (proj1 (register_other_tenant_unlisted 3000
                  (jsonBody (Some (JStr "Carol")) (Some (JArr [JNum 2])))
                  (twoFaces memoryServer) (JStr "Carol") (JArr [JNum 2]) "guest"
                  ltac:(vm_compute; discriminate) eq_refl eq_refl eq_refl eq_refl
                  ltac:(discriminate) ltac:(vm_compute; discriminate))).
Defined.

Lemma deleteFace_listing_frame_witness :
  fst (deleteFace "1000" (fst (deleteFace "1000" (twoFaces memoryServer))))
  = fst (deleteFace "1000" (twoFaces memoryServer)).
Proof.
  exact (proj2 (deleteFace_listing_frame "1000" None (twoFaces memoryServer)
                  ltac:(vm_compute; discriminate))).
Defined.

Lemma same_clock_same_id_witness :
  inMemoryFaces
    (fst (deleteFace (toString 5000)
            (fst (postRegister 5000 (jsonBody (Some (JStr "Dan")) (Some (JArr [JNum 4])))
                    (fst (postRegister 5000 (jsonBody (Some (JStr "Carol")) (Some (JArr [JNum 2])))
                            (twoFaces memoryServer)))))))
  = filter (fun f => negb (String.eqb (id f) (toString 5000)))
      (inMemoryFaces (twoFaces memoryServer)).
Proof.
  exact (proj2 (same_clock_same_id 5000
                  (jsonBody (Some (JStr "Carol")) (Some (JArr [JNum 2])))
                  (jsonBody (Some (JStr "Dan")) (Some (JArr [JNum 4])))
                  (twoFaces memoryServer) (JStr "Carol") (JStr "Dan") (JArr [JNum 2]) (JArr [JNum 4])
                  ltac:(vm_compute; discriminate)
                  eq_refl eq_refl eq_refl eq_refl eq_refl eq_refl eq_refl eq_refl)).
Defined.

End StoreExtra.

(* ------------------------------------------------------------------ *)
(** ** The face pipeline: guards, failures and what is shown *)

Module ControllerExtra.
Import Js Store Matcher Controller ControllerProps.
Local Open Scope string_scope.

Section Generic.

Context {Coll : Type} `{Driver string descriptor Coll}.

(** X6. [registerFace] sends nothing unless the name is not blank, the
    video and the models are there and the model found a face: short of
    that the server, the connection, the matcher and the list on
    screen are as before, and the user is told why (a notification is
    added). *)
Theorem registerFace_guarded (shot : detection) (w : world Coll) :
  isBlank (newPersonName (ui w)) = true \/ videoRef (ui w) = false
  \/ modelsLoaded (ui w) = false \/ shot = NoFace \/ shot = DetectionRaised ->
  backend (registerFace shot w) = backend w
  /\ net (registerFace shot w) = net w
  /\ faceMatcher (ui (registerFace shot w)) = faceMatcher (ui w)
  /\ registeredFaces (ui (registerFace shot w)) = registeredFaces (ui w)
  /\ newPersonName (ui (registerFace shot w)) = newPersonName (ui w)
  /\ (List.length (notices (ui w)) < List.length (notices (ui (registerFace shot w))))%nat.
Proof.
  intros G. unfold registerFace.
  destruct (isBlank (newPersonName (ui w))) eqn:B.
  { cbn. rewrite length_app. cbn. repeat split; lia. }
  destruct (videoRef (ui w)) eqn:V; cbn [negb orb].
  2:{ cbn. rewrite length_app. cbn. repeat split; lia. }
  destruct (modelsLoaded (ui w)) eqn:M; cbn [negb orb].
  2:{ cbn. rewrite length_app. cbn. repeat split; lia. }
  destruct G as [G | [G | [G | [G | G]]]]; try discriminate; subst shot; cbn;
    rewrite !length_app; cbn; repeat split; lia.
Qed.

Lemma loadFaceDescriptors_keeps_list (w : world Coll) :
  registeredFaces (ui (loadFaceDescriptors w)) = registeredFaces (ui w).
Proof.
  unfold loadFaceDescriptors, fetch.
  destruct (net w) as [| [|] rest];
    try destruct (getDescriptors (Some "default_user") (backend w)) as [s [ | | ds | | ]];
    try reflexivity; destruct ds; reflexivity.
Qed.

Lemma loadFaceDescriptors_labels (w : world Coll) s ds :
  net w = [] ->
  getDescriptors (Some "default_user") (backend w) = (s, DescriptorList ds) ->
  ds <> [] ->
  labeledDescriptors (ui (loadFaceDescriptors w)) = labeled ds.
Proof.
  intros O E N. unfold loadFaceDescriptors. rewrite (fetch_reaches _ w s _ O E).
  destruct ds as [| e ds]; [contradiction | reflexivity].
Qed.

Lemma loadRegisteredFaces_list (w : world Coll) s2 fs s3 ds :
  net w = [] ->
  getFaces (Some "default_user") (backend w) = (s2, FaceList fs) ->
  getDescriptors (Some "default_user") s2 = (s3, DescriptorList ds) ->
  registeredFaces (ui (loadRegisteredFaces w)) = fs
  /\ (ds <> [] -> labeledDescriptors (ui (loadRegisteredFaces w)) = labeled ds).
Proof.
  intros O E2 E3. unfold loadRegisteredFaces.
  rewrite (fetch_reaches _ (onUi (setIsLoading true) w) s2 (FaceList fs) O E2).
  match goal with |- context [loadFaceDescriptors ?x] => set (w2 := x) end.
  split.
  - change (registeredFaces (ui (loadFaceDescriptors w2)) = fs).
    rewrite loadFaceDescriptors_keeps_list. reflexivity.
  - intros N. change (labeledDescriptors (ui (loadFaceDescriptors w2)) = labeled ds).
    exact (loadFaceDescriptors_labels w2 s3 ds eq_refl E3 N).
Qed.

(** X7. With the fallback active and every request answered, the list
    on screen after [deleteFace(id)] is exactly the tenant's faces that
    are left, in their order, so it shows no entry with the deleted
    id; this also holds when no face is left, where the list is empty
    although the matcher is kept. *)
Theorem deleteFace_list_on_screen (fid : string) (w : world Coll) :
  net w = [] ->
  readyState (backend w) <> 1%Z ->
  registeredFaces (ui (deleteFace fid w))
  = map entryOf
      (tenantFaces (filter (fun f => negb (String.eqb (id f) fid)) (inMemoryFaces (backend w))))
  /\ (forall e, In e (registeredFaces (ui (deleteFace fid w))) -> e_id e <> fid).
Proof.
  intros O R.
  set (s1 := setInMemoryFaces (backend w)
               (filter (fun f => negb (String.eqb (id f) fid)) (inMemoryFaces (backend w)))).
  assert (R1 : readyState s1 <> 1%Z) by exact R.
  assert (L : registeredFaces (ui (deleteFace fid w))
              = map entryOf (tenantFaces (inMemoryFaces s1))).
  { unfold deleteFace.
    rewrite (fetch_reaches _ (onUi (setIsLoading true) w) s1 _ O (deleteFace_fallback fid _ R)).
    cbn [success].
    match goal with |- context [loadRegisteredFaces ?x] => set (w2 := x) end.
    change (registeredFaces (ui (loadRegisteredFaces w2)) = map entryOf (tenantFaces (inMemoryFaces s1))).
    exact (proj1 (loadRegisteredFaces_list w2 s1 _ s1 _ eq_refl
                    (getFaces_fallback s1 R1) (getDescriptors_fallback s1 R1))). }
  split; [exact L |].
  intros e He. rewrite L in He. apply in_map_iff in He. destruct He as (f & E & Hf). subst e.
  unfold tenantFaces, s1 in Hf. cbn [inMemoryFaces setInMemoryFaces] in Hf.
  apply filter_In in Hf. destruct Hf as (Hf & _). apply filter_In in Hf. destruct Hf as (_ & Hi).
  apply negb_true_iff, String.eqb_neq in Hi. exact Hi.
Qed.


(** X9. A request that does not reach the server changes nothing but
    the notifications: after a [deleteFace], or a [registerFace] that
    passed its guards, whose first request is dropped, the server, the
    matcher and the list on screen are as before, the typed name is
    kept, and the last notification reports the failure. *)
Theorem dropped_request_keeps_state (fid : string) (d : descriptor) (w : world Coll)
    (rest : list bool) :
  net w = false :: rest ->
  (backend (deleteFace fid w) = backend w
   /\ net (deleteFace fid w) = rest
   /\ faceMatcher (ui (deleteFace fid w)) = faceMatcher (ui w)
   /\ registeredFaces (ui (deleteFace fid w)) = registeredFaces (ui w)
   /\ last (notices (ui (deleteFace fid w))) ("", "") = ("❌ Failed to remove person", "error"))
  /\ (isBlank (newPersonName (ui w)) = false -> videoRef (ui w) = true ->
      modelsLoaded (ui w) = true ->
      backend (registerFace (FaceFound d) w) = backend w
      /\ net (registerFace (FaceFound d) w) = rest
      /\ faceMatcher (ui (registerFace (FaceFound d) w)) = faceMatcher (ui w)
      /\ registeredFaces (ui (registerFace (FaceFound d) w)) = registeredFaces (ui w)
      /\ newPersonName (ui (registerFace (FaceFound d) w)) = newPersonName (ui w)
      /\ last (notices (ui (registerFace (FaceFound d) w))) ("", "")
         = ("❌ Failed to register face", "error")).
Proof.
  intros N. split.
  - unfold deleteFace, fetch. cbn [net onUi]. rewrite N. cbn.
    rewrite last_last. repeat split.
  - intros Hn Hv Hm. unfold registerFace, fetch. rewrite Hn, Hv, Hm. cbn [negb orb net onUi].
    rewrite N. cbn. rewrite last_last. repeat split.
Qed.

Lemma loadFaceDescriptors_kept_or_set (w : world Coll) :
  faceMatcher (ui (loadFaceDescriptors w)) = faceMatcher (ui w)
  \/ exists m, faceMatcher (ui (loadFaceDescriptors w)) = Some m.
Proof.
  unfold loadFaceDescriptors, fetch.
  destruct (net w) as [| [|] rest];
    try destruct (getDescriptors (Some "default_user") (backend w)) as [s [ | | ds | | ]];
    try (left; reflexivity); destruct ds; [left; reflexivity | right; eexists; reflexivity
                                          | left; reflexivity | right; eexists; reflexivity].
Qed.

Lemma loadRegisteredFaces_kept_or_set (w : world Coll) :
  faceMatcher (ui (loadRegisteredFaces w)) = faceMatcher (ui w)
  \/ exists m, faceMatcher (ui (loadRegisteredFaces w)) = Some m.
Proof.
  unfold loadRegisteredFaces.
  rewrite matcher_onUi_setIsLoading.
  destruct (fetch (getFaces (Some "default_user")) (onUi (setIsLoading true) w))
    as [w1 [[ | fs | | | ] |]] eqn:F;
    try (left; unfold fetch in F; cbn [net onUi backend] in F;
         destruct (net w) as [| [|] rest];
         try destruct (getFaces (Some "default_user") (backend w));
         inversion F; subst; reflexivity).
  assert (E1 : faceMatcher (ui w1) = faceMatcher (ui w)).
  { unfold fetch in F; cbn [net onUi backend] in F.
    destruct (net w) as [| [|] rest];
      try destruct (getFaces (Some "default_user") (backend w));
      inversion F; subst; reflexivity. }
  match goal with |- context [loadFaceDescriptors ?x] =>
    destruct (loadFaceDescriptors_kept_or_set x) as [K | K] end.
  - left. rewrite K. cbn. exact E1.
  - right. exact K.
Qed.

(** X25. Whatever the server, the driver and the connection do, no
    operation of the pipeline ever takes the matcher away: after
    [loadFaceDescriptors], [loadRegisteredFaces], [deleteFace] or
    [registerFace] the component holds the matcher it held before or a
    newly built one, so a matcher that was set once stays set. *)
Theorem matcher_never_unset (fid : string) (shot : detection) (w : world Coll) :
  (faceMatcher (ui (loadFaceDescriptors w)) = faceMatcher (ui w)
   \/ exists m, faceMatcher (ui (loadFaceDescriptors w)) = Some m)
  /\ (faceMatcher (ui (loadRegisteredFaces w)) = faceMatcher (ui w)
      \/ exists m, faceMatcher (ui (loadRegisteredFaces w)) = Some m)
  /\ (faceMatcher (ui (deleteFace fid w)) = faceMatcher (ui w)
      \/ exists m, faceMatcher (ui (deleteFace fid w)) = Some m)
  /\ (faceMatcher (ui (registerFace shot w)) = faceMatcher (ui w)
      \/ exists m, faceMatcher (ui (registerFace shot w)) = Some m).
Proof.
  split; [apply loadFaceDescriptors_kept_or_set |].
  split; [apply loadRegisteredFaces_kept_or_set |].
  split.
  - unfold deleteFace. rewrite matcher_onUi_setIsLoading.
    destruct (fetch (Store.deleteFace fid) (onUi (setIsLoading true) w)) as [w1 [data |]] eqn:F.
    + assert (E1 : faceMatcher (ui w1) = faceMatcher (ui w)).
      { unfold fetch in F; cbn [net onUi backend] in F.
        destruct (net w) as [| [|] rest];
          try destruct (Store.deleteFace fid (backend w));
          inversion F; subst; reflexivity. }
      destruct (success data); [| left; exact E1].
      match goal with |- context [loadRegisteredFaces ?x] =>
        destruct (loadRegisteredFaces_kept_or_set x) as [K | K] end.
      * left. rewrite K. exact E1.
      * right. exact K.
    + left. unfold fetch in F; cbn [net onUi backend] in F.
      destruct (net w) as [| [|] rest];
        try destruct (Store.deleteFace fid (backend w));
        inversion F; subst; reflexivity.
  - unfold registerFace.
    destruct (isBlank (newPersonName (ui w))); [left; reflexivity |].
    destruct (negb (videoRef (ui w)) || negb (modelsLoaded (ui w)))%bool; [left; reflexivity |].
    rewrite matcher_onUi_setIsLoading.
    destruct shot as [| | d]; [left; reflexivity | left; reflexivity |].
    match goal with |- context [fetch ?h ?x] =>
      destruct (fetch h x) as [w1 [data |]] eqn:F end.
    + assert (E1 : faceMatcher (ui w1) = faceMatcher (ui w)).
      { unfold fetch in F; cbn [net onUi backend clock ui] in F.
        destruct (net w) as [| [|] rest];
          try match type of F with context [postRegister ?a ?b ?c] =>
                destruct (postRegister a b c) end;
          inversion F; subst; reflexivity. }
      destruct (success data); [| left; exact E1].
      match goal with |- context [loadRegisteredFaces ?x] =>
        destruct (loadRegisteredFaces_kept_or_set x) as [K | K] end.
      * left. rewrite K. exact E1.
      * right. exact K.
    + left. unfold fetch in F; cbn [net onUi backend clock ui] in F.
      destruct (net w) as [| [|] rest];
        try match type of F with context [postRegister ?a ?b ?c] =>
              destruct (postRegister a b c) end;
        inversion F; subst; reflexivity.
Qed.

End Generic.

Import ListDriver Examples MoreExamples.

(** White space is what [trim] strips, not only the ASCII part of it:
    a name of no-break spaces, line separators and tabs is blank, a
    name with a letter in it is not, and a zero width space (U+200B) is
    no white space. *)
Example isBlank_examples :
  isBlank "" = true
  /\ isBlank (nbsp ++ " " ++ nbsp) = true
  /\ isBlank zwsp = false
  /\ isBlank (" " ++ eacute) = false
  /\ isBlank " Bob " = false
  /\ last (notices (ui (registerFace (FaceFound [1; 0; 0]%Q) nbspTyped))) ("", "")
     = ("⚠️ Please enter a name", "warning")
  /\ inMemoryFaces (backend (registerFace (FaceFound [1; 0; 0]%Q) nbspTyped)) = [].
Proof. repeat (split; [vm_compute; reflexivity |]). vm_compute. reflexivity. Qed.

Lemma registerFace_guarded_witness :
  backend (registerFace (FaceFound [1; 0; 0]%Q) freshWorld) = backend freshWorld
  /\ backend (registerFace NoFace bobTyped) = backend bobTyped.
Proof.
  split.
  - exact (proj1 (registerFace_guarded (FaceFound [1; 0; 0]%Q) freshWorld (or_introl eq_refl))).
  - apply (registerFace_guarded NoFace bobTyped). right. right. right. left. reflexivity.
Defined.

Lemma deleteFace_list_on_screen_witness :
  registeredFaces (ui (deleteFace "1000" aliceOnly))
  = map entryOf
      (tenantFaces (filter (fun f => negb (String.eqb (id f) "1000"))
                      (inMemoryFaces (backend aliceOnly)))).
Proof.
  apply (deleteFace_list_on_screen "1000" aliceOnly);
    [vm_compute; reflexivity | vm_compute; discriminate].
Defined.


Lemma dropped_request_keeps_state_witness :
  backend (deleteFace "1000" aliceOffline) = backend aliceOffline
  /\ faceMatcher (ui (deleteFace "1000" aliceOffline)) = faceMatcher (ui aliceOffline).
Proof.
  destruct (dropped_request_keeps_state "1000" [1; 0; 0]%Q aliceOffline [] eq_refl)
    as ((B & _ & M & _) & _).
  split; [exact B | exact M].
Defined.

End ControllerExtra.

(* ------------------------------------------------------------------ *)
(** ** Navigation *)

Module RoutesProps.
Import Js Routes.
Local Open Scope string_scope.

Lemma afterGt_shorter (s r : string) :
  afterGt s = Some r -> (String.length r < String.length s)%nat.
Proof.
  revert r. induction s as [| c s IH]; intros r E; cbn in *; [discriminate |].
  destruct (isGt c); [inversion E; subst; lia |].
  specialize (IH r E). lia.
Qed.

Lemma afterGt_none (s : string) : afterGt s = None <-> hasGt s = false.
Proof.
  induction s as [| c s IH]; cbn; [tauto |].
  destruct (isGt c); cbn; [split; discriminate | exact IH].
Qed.

(** Any fuel from the length of the string on gives the same result. *)
Lemma stripTagsFrom_enough (n : nat) :
  forall m s, (String.length s <= n)%nat -> (String.length s <= m)%nat ->
  stripTagsFrom n s = stripTagsFrom m s.
Proof.
  induction n as [| n IH]; intros m s Hn Hm.
  - destruct s; cbn in Hn; [| lia]. destruct m; reflexivity.
  - destruct m as [| m]; [destruct s; cbn in Hm; [reflexivity | lia] |].
    destruct s as [| c r]; [reflexivity |]. cbn in Hn, Hm. cbn [stripTagsFrom].
    destruct (isLt c).
    + destruct (afterGt r) as [r' |] eqn:A.
      * pose proof (afterGt_shorter r r' A). apply IH; lia.
      * f_equal. apply IH; lia.
    + f_equal. apply IH; lia.
Qed.

(** The scan, one character at a time. *)
Lemma stripTags_step (c : Ascii.ascii) (r : string) :
  stripTags (String c r)
  = if isLt c then
      match afterGt r with
      | Some r' => stripTags r'
      | None => String c (stripTags r)
      end
    else String c (stripTags r).
Proof.
  unfold stripTags. cbn [String.length stripTagsFrom].
  destruct (isLt c).
  - destruct (afterGt r) as [r' |] eqn:A.
    + pose proof (afterGt_shorter r r' A). apply stripTagsFrom_enough; lia.
    + reflexivity.
  - reflexivity.
Qed.

Lemma stripTags_empty : stripTags "" = "".
Proof. reflexivity. Qed.

Lemma stripTags_without_gt (s : string) : hasGt s = false -> stripTags s = s.
Proof.
  induction s as [| c r IH]; intros G; [reflexivity |].
  cbn in G. apply orb_false_iff in G. destruct G as (_ & G).
  rewrite stripTags_step, (proj2 (afterGt_none r) G), (IH G).
  destruct (isLt c); reflexivity.
Qed.

Lemma stripTags_without_tag (s : string) : hasTag s = false -> stripTags s = s.
Proof.
  induction s as [| c r IH]; intros T; [reflexivity |].
  cbn in T. apply orb_false_iff in T. destruct T as (T1 & T2).
  rewrite stripTags_step, (IH T2).
  destruct (isLt c); [| reflexivity].
  cbn in T1. rewrite (proj2 (afterGt_none r) T1). reflexivity.
Qed.

Lemma stripTags_measure (n : nat) :
  forall s, (String.length s <= n)%nat ->
  hasTag (stripTags s) = false /\ (String.length (stripTags s) <= String.length s)%nat.
Proof.
  induction n as [| n IH]; intros s L.
  - destruct s; cbn in L; [split; [reflexivity | cbn; lia] | lia].
  - destruct s as [| c r]; [split; [reflexivity | cbn; lia] |].
    cbn in L. rewrite stripTags_step.
    destruct (isLt c) eqn:C.
    + destruct (afterGt r) as [r' |] eqn:A.
      * pose proof (afterGt_shorter r r' A).
        destruct (IH r' ltac:(lia)) as (T & Len). split; [exact T | cbn; lia].
      * destruct (IH r ltac:(lia)) as (T & Len).
        pose proof (proj1 (afterGt_none r) A) as G.
        rewrite (stripTags_without_gt r G) in *.
        split; [cbn; rewrite G, T, andb_false_r; reflexivity | cbn; lia].
    + destruct (IH r ltac:(lia)) as (T & Len).
      split; [cbn; rewrite C, T; reflexivity | cbn; lia].
Qed.

(** X10. Whatever the instruction text, what [replace(/<[^>]*>/g, '')]
    leaves has no tag: no [<] in it is followed by a [>]. Stripping a
    second time changes nothing, and the result is never longer than
    the text. *)
Theorem stripTags_leaves_no_tag (s : string) :
  hasTag (stripTags s) = false
  /\ stripTags (stripTags s) = stripTags s
  /\ (String.length (stripTags s) <= String.length s)%nat.
Proof.
  destruct (stripTags_measure (String.length s) s (le_n _)) as (T & L).
  split; [exact T |]. split; [apply stripTags_without_tag, T | exact L].
Qed.

(** X11. The text is left exactly as it is if and only if it has no
    tag; in particular a lone [<] that no [>] follows, and a [>] with
    no [<] before it, are kept. *)
Theorem stripTags_unchanged_iff (s : string) :
  stripTags s = s <-> hasTag s = false.
Proof.
  split; [| apply stripTags_without_tag].
  intros E. rewrite <- E. apply stripTags_leaves_no_tag.
Qed.

Example stripTags_instruction :
  stripTags "Turn <b>left</b> onto <div style='x'>Main St</div>" = "Turn left onto Main St"
  /\ stripTags "if a < b walk > 5 m" = "if a  5 m"
  /\ stripTags "a > b and c < d" = "a > b and c < d".
Proof. repeat split; reflexivity. Qed.

Lemma score_values (r : route) (l : leg) (rest : list leg) :
  legs r = l :: rest ->
  Scorer.calculateSafetyScore (scored r)
  = Some (if (duration_value l <? 900)%Z then 85
          else if (2700 <? duration_value l)%Z then 65 else 75)%Z.
Proof.
  intros E. unfold Scorer.calculateSafetyScore, scored. rewrite E. cbn [map Scorer.legs nth_error].
  rewrite ScorerProps.rawScore_cases. cbn [Scorer.duration_value].
  destruct (duration_value l <? 900)%Z; [reflexivity |].
  destruct (2700 <? duration_value l)%Z; reflexivity.
Qed.

Lemma postSafeRoute_found_values (key : option string)
    (get : string -> string -> string -> string + directions)
    (origin : option (string * string)) (destination : string) (body : routeBody) :
  postSafeRoute key get origin destination = RouteFound body ->
  r_safetyScore body = 85%Z \/ r_safetyScore body = 75%Z \/ r_safetyScore body = 65%Z.
Proof.
  unfold postSafeRoute. intros E.
  destruct (orNull key) as [k |]; [| discriminate].
  destruct origin as [[lat lng] |]; [| discriminate].
  destruct (get _ destination k) as [e | data]; [discriminate |].
  destruct (String.eqb (status data) "OK" && (0 <? List.length (routes data))%nat)%bool;
    [| destruct (routes data); discriminate].
  destruct (routes data) as [| r others]; [discriminate |].
  destruct (legs r) as [| l legs'] eqn:L; [discriminate |].
  rewrite (score_values r l legs' L) in E. inversion E; subst body; clear E. cbn.
  destruct (duration_value l <? 900)%Z; [auto |].
  destruct (2700 <? duration_value l)%Z; auto.
Qed.

(** X12. Whenever the safe-route endpoint answers with a route, that
    route is the provider's first route and its first leg: the score
    is 85, 75 or 65 as the leg lasts less than 15 minutes, at most 45,
    or more; there is one step per step of the leg, and no step has a
    tag left. *)
Theorem postSafeRoute_found (key : option string)
    (get : string -> string -> string -> string + directions)
    (origin : option (string * string)) (destination : string) (body : routeBody) :
  postSafeRoute key get origin destination = RouteFound body ->
  exists k lat lng data r others l legs',
    key = Some k /\ k <> "" /\ origin = Some (lat, lng)
    /\ get (lat ++ "," ++ lng) destination k = inr data
    /\ status data = "OK" /\ routes data = r :: others /\ legs r = l :: legs'
    /\ r_safetyScore body
       = (if (duration_value l <? 900)%Z then 85
          else if (2700 <? duration_value l)%Z then 65 else 75)%Z
    /\ r_steps body = map stripTags (steps l)
    /\ Forall (fun s => hasTag s = false) (r_steps body)
    /\ r_destination body = end_address l
    /\ r_origin body = lat ++ "," ++ lng.
Proof.
  unfold postSafeRoute. intros E.
  destruct key as [k |]; cbn [orNull] in E; [| discriminate].
  destruct (truthy k) eqn:Tk; [| discriminate].
  destruct origin as [[lat lng] |]; [| discriminate].
  destruct (get (lat ++ "," ++ lng) destination k) as [e | data] eqn:G; [discriminate |].
  destruct (String.eqb (status data) "OK") eqn:S; cbn [andb] in E;
    [| destruct (routes data); discriminate].
  destruct (routes data) as [| r others] eqn:Rs; [cbn in E; discriminate |].
  cbn [List.length Nat.ltb Nat.leb] in E.
  destruct (legs r) as [| l legs'] eqn:L; [discriminate |].
  rewrite (score_values r l legs' L) in E. inversion E; subst body; clear E.
  exists k, lat, lng, data, r, others, l, legs'. cbn.
  repeat split; try reflexivity; try assumption.
  - intros K. subst k. discriminate Tk.
  - apply String.eqb_eq, S.
  - apply Forall_forall. intros s Hs. apply in_map_iff in Hs.
    destruct Hs as (t & Et & _). subst s. apply stripTags_leaves_no_tag.
Qed.

(** X13. Without a configured key the endpoint answers 500 and does
    not depend on the provider at all. With a key and an origin, when
    the provider answers a status other than OK, or OK without any
    route, the endpoint answers [success: false] with the provider's
    status as the error, which is the text OK in the second case. *)
Theorem postSafeRoute_not_found (key : option string)
    (get : string -> string -> string -> string + directions)
    (origin : option (string * string)) (destination : string) :
  (key = None \/ key = Some "" ->
     forall get', postSafeRoute key get' origin destination
                  = RouteFailure 500 "Google Maps API key not configured")
  /\ (forall k lat lng data,
        key = Some k -> k <> "" -> origin = Some (lat, lng) ->
        get (lat ++ "," ++ lng) destination k = inr data ->
        status data <> "OK" \/ routes data = [] ->
        postSafeRoute key get origin destination
        = RouteNotFound (status data)
            "Could not find route. Please check the destination address.").
Proof.
  split.
  - intros [K | K] get'; subst key; reflexivity.
  - intros k lat lng data K Kne O G Bad. subst key origin. unfold postSafeRoute.
    assert (Tk : truthy k = true) by (destruct k; [contradiction | reflexivity]).
    cbn [orNull]. rewrite Tk, G.
    destruct Bad as [S | Rs].
    + apply String.eqb_neq in S. rewrite S. cbn [andb]. destruct (routes data); reflexivity.
    + rewrite Rs. cbn. rewrite andb_false_r. reflexivity.
Qed.

(** X14. For every route the endpoint answers, the page shows the
    score the server sent, labelled Very Safe in green when it is 85
    and Moderately Safe in yellow when it is 75 or 65: Caution Advised
    and the red colour are never shown for a score of the server. *)
Theorem shown_label_of_found_route (key : option string)
    (get : string -> string -> string -> string + directions)
    (origin : option (string * string)) (destination : string) (body : routeBody) :
  postSafeRoute key get origin destination = RouteFound body ->
  shownScore body = r_safetyScore body
  /\ ((r_safetyScore body = 85%Z
       /\ getSafetyLabel (shownScore body) = "Very Safe"
       /\ getSafetyColor (shownScore body) = "text-green-400")
      \/ ((r_safetyScore body = 75%Z \/ r_safetyScore body = 65%Z)
          /\ getSafetyLabel (shownScore body) = "Moderately Safe"
          /\ getSafetyColor (shownScore body) = "text-yellow-400")).
Proof.
  intros E.
  destruct (postSafeRoute_found_values key get origin destination body E) as [V | [V | V]];
    unfold shownScore; rewrite V; cbn; auto 6.
Qed.

Lemma postSafeRoute_found_witness :
  exists body,
    postSafeRoute (Some "key") MoreExamples.provider (Some ("12.9", "77.5")) "Main St"
    = RouteFound body
    /\ r_safetyScore body = 85%Z
    /\ r_steps body = ["Head north"; "Turn left"].
Proof.
  eexists. split; [reflexivity |].
  destruct (postSafeRoute_found (Some "key") MoreExamples.provider (Some ("12.9", "77.5"))
              "Main St" _ eq_refl)
    as (k & lat & lng & data & r & others & l & legs' & _).
  split; reflexivity.
Defined.

Lemma shown_label_of_found_route_witness :
  exists body,
    postSafeRoute (Some "key") MoreExamples.provider (Some ("12.9", "77.5")) "Main St"
    = RouteFound body
    /\ shownScore body = r_safetyScore body.
Proof.
  eexists. split; [reflexivity |].
  exact (proj1 (shown_label_of_found_route (Some "key") MoreExamples.provider
                  (Some ("12.9", "77.5")) "Main St" _ eq_refl)).
Defined.

End RoutesProps.

(* ------------------------------------------------------------------ *)
(** ** Voice commands *)

Module VoiceProps.
Import Voice.
Local Open Scope string_scope.

Ltac by_table command :=
  unfold processCommand, commands; cbn [find fst map firstn forallb];
  repeat match goal with
         | |- context [includes command ?k] =>
             let E := fresh "E" in
             destruct (includes command k) eqn:E; cbn [negb andb orb]; cbv iota
         end.

(** X15. A command that contains the word home always opens the home
    screen, whatever else it contains: the two home keys come first in
    the table. No notification is added, also when the command asks
    for an SOS. *)
Theorem processCommand_home_first (now : Z) (command : string) (p : page) :
  includes command "home" = true ->
  activeModule (processCommand now command p) = "home"
  /\ Notify.notifications (bridge (processCommand now command p))
     = Notify.notifications (bridge p)
  /\ Notify.spoken (bridge (processCommand now command p))
     = (Notify.spoken (bridge p) ++ ["Going to home screen"])%list.
Proof.
  intros H. unfold processCommand, commands. cbn [find fst].
  destruct (includes command "go home"); [repeat split |].
  rewrite H. repeat split.
Qed.

Lemma processCommand_home_first_witness :
  activeModule (processCommand 1000 "send sos i am at home"
                  {| activeModule := "face"; bridge := Notify.initial; clears := 0 |}) = "home".
Proof.
  exact (proj1 (processCommand_home_first 1000 "send sos i am at home"
                  {| activeModule := "face"; bridge := Notify.initial; clears := 0 |} eq_refl)).
Defined.

(** X16. A command adds a notification exactly when it contains send
    sos or emergency and none of the fourteen keys that come before
    them in the table: then it adds one warning, the SOS one if the
    command contains send sos. In every other case the notifications
    are as before. *)
Theorem processCommand_alert (now : Z) (command : string) (p : page) :
  Notify.notifications (bridge (processCommand now command p))
  = if (forallb (fun k => negb (includes command k)) (firstn 14 (map fst commands))
        && (includes command "send sos" || includes command "emergency"))%bool
    then (Notify.notifications (bridge p)
          ++ [{| Notify.id := now;
                 Notify.message := if includes command "send sos"
                                   then "SOS Alert Triggered" else "Emergency Mode Activated";
                 Notify.type := "warning" |}])%list
    else Notify.notifications (bridge p).
Proof.
  by_table command; reflexivity.
Qed.

(** X17. Every command is answered by speech and schedules one clear
    of the transcript. The active module is left as it is or set to
    one of the six screens; a command that contains none of the keys
    changes neither the module nor the notifications and is answered
    that it was not recognized. *)
Theorem processCommand_answers (now : Z) (command : string) (p : page) :
  (List.length (Notify.spoken (bridge p))
   < List.length (Notify.spoken (bridge (processCommand now command p))))%nat
  /\ clears (processCommand now command p) = S (clears p)
  /\ (activeModule (processCommand now command p) = activeModule p
      \/ In (activeModule (processCommand now command p))
           ["home"; "detection"; "text"; "face"; "currency"; "navigation"])
  /\ (forallb (fun k => negb (includes command k)) (map fst commands) = true ->
      activeModule (processCommand now command p) = activeModule p
      /\ Notify.notifications (bridge (processCommand now command p))
         = Notify.notifications (bridge p)
      /\ Notify.spoken (bridge (processCommand now command p))
         = (Notify.spoken (bridge p)
            ++ ["Command not recognized. Say help for available commands"])%list).
Proof.
  by_table command; cbn; rewrite ?length_app; cbn;
    (split; [lia |]); (split; [reflexivity |]);
    (split; [auto 10 |]); intros F; try discriminate F; repeat split.
Qed.

End VoiceProps.

(* ------------------------------------------------------------------ *)
(** ** Object detection announcements *)

Module AnnounceProps.
Import Announce.
Local Open Scope string_scope.

Lemma existsb_insertSorted (f : string -> bool) (x : string) (l : list string) :
  existsb f (insertSorted x l) = (f x || existsb f l)%bool.
Proof.
  induction l as [| y r IH]; cbn; [reflexivity |].
  destruct (String.leb x y); cbn; [reflexivity |].
  rewrite IH. destruct (f x), (f y); reflexivity.
Qed.

Lemma existsb_sort (f : string -> bool) (l : list string) :
  existsb f (sort l) = existsb f l.
Proof.
  induction l as [| x r IH]; cbn; [reflexivity |].
  fold (sort r). rewrite existsb_insertSorted, IH. reflexivity.
Qed.

Lemma existsb_filter_nonempty (f : string -> bool) (l : list string) :
  (0 <? List.length (filter f l))%nat = existsb f l.
Proof.
  induction l as [| x r IH]; cbn; [reflexivity |].
  destruct (f x); cbn; [reflexivity | exact IH].
Qed.

(** What one call tells about the next: it announces only 3000 ms or
    more after the time in the ref and then stores its own clock
    reading; "No objects detected" needs announced objects in the ref
    and empties it; a warning needs a ref without hazard and leaves
    one with a hazard; a call that announces nothing keeps the time,
    the emptiness and the hazards of the ref. *)
Lemma announceDetections_step (now : Z) (predictions : list string) (last : announcement) :
  match announced (announceDetections now predictions last) with
  | Some n =>
      (3000 <= now - time last)%Z
      /\ time (ref (announceDetections now predictions last)) = now
      /\ (objects last = [] -> fst n <> "No objects detected")
      /\ (fst n = "No objects detected" ->
            objects (ref (announceDetections now predictions last)) = [])
      /\ (warning (announceDetections now predictions last) <> None ->
            existsb isHazard (objects last) = false
            /\ existsb isHazard (objects (ref (announceDetections now predictions last))) = true)
  | None =>
      time (ref (announceDetections now predictions last)) = time last
      /\ (objects last = [] -> objects (ref (announceDetections now predictions last)) = [])
      /\ existsb isHazard (objects (ref (announceDetections now predictions last)))
         = existsb isHazard (objects last)
      /\ warning (announceDetections now predictions last) = None
  end.
Proof.
  unfold announceDetections.
  destruct (now - time last <? 3000)%Z eqn:T; [cbn; auto |].
  apply Z.ltb_ge in T.
  destruct predictions as [| c cs].
  - destruct ((0 <? List.length (objects last))%nat && (5000 <? now - time last)%Z)%bool eqn:G;
      [| cbn; auto].
    cbn. split; [lia |]. split; [reflexivity |]. split.
    + intros E. rewrite E in G. discriminate G.
    + split; [reflexivity |]. intros W. contradiction.
  - destruct (differ (sort (c :: cs)) (sort (objects last)) || (8000 <? now - time last)%Z)%bool.
    + cbn [announced ref warning time objects fst].
      split; [lia |]. split; [reflexivity |]. split.
      * intros _. destruct (3 <? _)%nat; cbn; discriminate.
      * split; [destruct (3 <? _)%nat; cbn; discriminate |].
        rewrite existsb_filter_nonempty, !existsb_sort.
        destruct (existsb isHazard (c :: cs)); [| cbn; intros W; contradiction].
        destruct (existsb isHazard (objects last)); cbn; [intros W; contradiction | auto].
    + cbn. split; [reflexivity |]. split; [intros E; rewrite E; reflexivity |].
      split; [apply existsb_sort | reflexivity].
Qed.

Lemma run_spaced (calls : list (Z * list string)) :
  forall last, spaced (time last) (snd (run calls last)).
Proof.
  induction calls as [| [now predictions] rest IH]; intros last; cbn [run]; [exact I |].
  pose proof (announceDetections_step now predictions last) as S.
  specialize (IH (ref (announceDetections now predictions last))).
  destruct (run rest (ref (announceDetections now predictions last))) as [final log].
  cbn [snd] in IH.
  destruct (announced (announceDetections now predictions last)) as [n |]; cbn [snd].
  - destruct S as (T & E & _). rewrite E in IH. cbn [spaced]. split; assumption.
  - destruct S as (E & _). rewrite E in IH. exact IH.
Qed.

(** With the warnings counted, a notification is due 500 ms or more
    after the one before: a warning exactly 500 ms after the
    announcement that scheduled it, the next announcement 2500 ms or
    more after a warning. *)
Lemma spaced_due (log : list (Z * (string * string) * bool)) :
  forall t0 s, spaced t0 log -> (s <= t0 + 500)%Z -> apart 500 s (due log).
Proof.
  induction log as [| [[t n] w] rest IH]; intros t0 s Sp Hs; cbn [due]; [exact I |].
  cbn [spaced] in Sp. destruct Sp as (T & Sp).
  cbn [apart app]. split; [lia |].
  destruct w; cbn [app apart].
  - split; [lia |]. apply (IH t); [exact Sp | lia].
  - apply (IH t); [exact Sp | lia].
Qed.

(** X18. In every run of [announceDetections], from whatever the ref
    holds, two calls that announce are never less than 3000 ms apart,
    and the first comes 3000 ms or more after the time in the ref.
    The warning a call schedules is not held back by that: it is due
    500 ms after the announcement of its call.  With the warnings
    counted, two notifications are never due less than 500 ms apart,
    and this bound is met whenever a warning is scheduled. *)
Theorem announcements_spaced (calls : list (Z * list string)) (last : announcement) :
  spaced (time last) (snd (run calls last))
  /\ apart 500 (time last) (due (snd (run calls last)))
  /\ (forall before t n rest,
        snd (run calls last) = (before ++ (t, n, true) :: rest)%list ->
        due (snd (run calls last))
        = (due before ++ t :: (t + 500)%Z :: due rest)%list).
Proof.
  split; [apply run_spaced |]. split.
  - apply (spaced_due _ (time last)); [apply run_spaced | lia].
  - intros before t n rest E. rewrite E. clear E.
    induction before as [| [[t1 n1] w1] before IH]; cbn [app due].
    + reflexivity.
    + rewrite IH. destruct w1; reflexivity.
Qed.

Lemma run_alternating (calls : list (Z * list string)) :
  forall last, headAllowed last (snd (run calls last)) /\ alternating (snd (run calls last)).
Proof.
  induction calls as [| [now predictions] rest IH]; intros last; cbn [run]; [split; exact I |].
  pose proof (announceDetections_step now predictions last) as S.
  specialize (IH (ref (announceDetections now predictions last))).
  destruct (run rest (ref (announceDetections now predictions last))) as [final log].
  cbn [snd] in IH. destruct IH as (Hd & Alt).
  destruct (announced (announceDetections now predictions last)) as [n |]; cbn [snd].
  - destruct S as (_ & _ & Sn & Se & Sw). split.
    + cbn [headAllowed]. split; [exact Sn |].
      intros Hz. destruct (warning (announceDetections now predictions last)) eqn:W;
        [| reflexivity].
      destruct (Sw ltac:(discriminate)) as (F & _). congruence.
    + destruct log as [| [[t2 n2] w2] log']; [exact I |].
      cbn [alternating]. cbn [headAllowed] in Hd. destruct Hd as (Hn & Hw).
      split; [| split; [| exact Alt]].
      * intros (E1 & E2). exact (Hn (Se E1) E2).
      * intros (W1 & W2).
        destruct (warning (announceDetections now predictions last)) eqn:W; [| discriminate W1].
        destruct (Sw ltac:(discriminate)) as (_ & Hz). specialize (Hw Hz). congruence.
  - destruct S as (_ & Se & Sh & _). split; [| exact Alt].
    destruct log as [| [[t2 n2] w2] log']; [exact I |].
    cbn [headAllowed] in *. destruct Hd as (Hn & Hw). split.
    + intros E. exact (Hn (Se E)).
    + intros Hz. apply Hw. rewrite Sh. exact Hz.
Qed.

(** X19. In every run of [announceDetections], "No objects detected"
    is never announced twice in a row, and no two announcements in a
    row both schedule a hazard warning; starting from the initial ref
    the first announcement is never "No objects detected". *)
Theorem announcements_alternate (calls : list (Z * list string)) (last : announcement) :
  alternating (snd (run calls last))
  /\ match snd (run calls initial) with
     | [] => True
     | (_, n, _) :: _ => fst n <> "No objects detected"
     end.
Proof.
  split; [apply run_alternating |].
  destruct (run_alternating calls initial) as (Hd & _).
  destruct (snd (run calls initial)) as [| [[t n] w] log]; [exact I |].
  cbn [headAllowed] in Hd. exact (proj1 Hd eq_refl).
Qed.

Example announce_run :
  snd (run [(4000, ["person"; "chair"]); (5000, ["person"]); (7500, ["car"; "person"]);
            (13000, []); (19000, [])] initial)
  = [(4000, ("Detected: chair, person", "success"), true);
     (7500, ("Detected: car, person", "success"), false);
     (13000, ("No objects detected", "info"), false)]%Z.
Proof. vm_compute. reflexivity. Qed.

(** The same run with its warning: the announcement of 4000 is
    followed by "Warning: 1 moving object(s) nearby", due at 4500. *)
Example announce_run_warning :
  warning (announceDetections 4000 ["person"; "chair"] initial)
  = Some ("Warning: 1 moving object(s) nearby", "warning")
  /\ due (snd (run [(4000, ["person"; "chair"]); (5000, ["person"]); (7500, ["car"; "person"]);
                    (13000, []); (19000, [])] initial))
     = [4000; 4500; 7500; 13000]%Z.
Proof. split; vm_compute; reflexivity. Qed.

End AnnounceProps.

(* ------------------------------------------------------------------ *)
(** ** Runs of the notification bridge *)

Module NotifyTraceProps.
Import Notify NotifyTrace.
Local Open Scope string_scope.

Lemma In_dropNth {A : Type} (k : nat) (l : list A) (x y : A) :
  nth_error l k = Some y -> In x l -> x = y \/ In x (dropNth k l).
Proof.
  revert k. induction l as [| z l IH]; intros k E Hx; [destruct Hx |].
  destruct k as [| k]; cbn in *.
  - inversion E; subst. destruct Hx; auto.
  - destruct Hx as [Hx | Hx]; [right; left; exact Hx |].
    destruct (IH k E Hx); auto.
Qed.

Lemma covered_step (a : app) (e : event) : covered a = true -> covered (step a e) = true.
Proof.
  unfold covered. intros C. rewrite forallb_forall in C.
  destruct e as [now message type | k]; cbn [step].
  - unfold addNotification. cbn [notifications timeouts].
    apply forallb_forall. intros n Hn. apply in_app_or in Hn.
    rewrite existsb_app. destruct Hn as [Hn | [Hn | []]].
    + rewrite (C n Hn). reflexivity.
    + subst n. cbn. rewrite Z.eqb_refl. apply orb_true_r.
  - unfold timeoutFires. destruct (nth_error (timeouts a) k) as [[due nid] |] eqn:E;
      [| apply forallb_forall; exact C].
    cbn [notifications timeouts]. apply forallb_forall. intros n Hn.
    apply filter_In in Hn. destruct Hn as (Hn & Hid).
    apply negb_true_iff, Z.eqb_neq in Hid.
    specialize (C n Hn). apply existsb_exists in C. destruct C as ([due' nid'] & Ht & Eid).
    cbn [snd] in Eid. apply Z.eqb_eq in Eid. subst nid'.
    apply existsb_exists. exists (due', id n). split; [| cbn; apply Z.eqb_refl].
    destruct (In_dropNth k (timeouts a) _ _ E Ht) as [Eq | Hin]; [| exact Hin].
    inversion Eq; subst. contradiction.
Qed.

Lemma covered_run (es : list event) : forall a, covered a = true -> covered (run es a) = true.
Proof.
  induction es as [| e es IH]; intros a C; cbn [run]; [exact C |].
  apply IH, covered_step, C.
Qed.

(** X20. However calls of [addNotification] and timeouts interleave,
    every notification on screen still has a pending timeout that
    carries its id: none is left on screen for good, and once no
    timeout is pending the list is empty. *)
Theorem notifications_covered (es : list event) :
  covered (run es initial) = true
  /\ (timeouts (run es initial) = [] -> notifications (run es initial) = []).
Proof.
  assert (C : covered (run es initial) = true) by (apply covered_run; reflexivity).
  split; [exact C |].
  intros T. unfold covered in C. rewrite T in C.
  destruct (notifications (run es initial)); [reflexivity | discriminate C].
Qed.

Lemma spoken_run (es : list event) :
  forall a, spoken (run es a) = (spoken a ++ addMessages es)%list.
Proof.
  induction es as [| e es IH]; intros a; cbn [run addMessages]; [now rewrite app_nil_r |].
  rewrite IH. destruct e as [now message type | k]; cbn [step].
  - cbn [addNotification spoken]. rewrite <- app_assoc. reflexivity.
  - unfold timeoutFires. destruct (nth_error (timeouts a) k) as [[due nid] |]; reflexivity.
Qed.

(** X21. Every message handed to [addNotification] is spoken exactly
    once, in the order of the calls; timeouts never add or remove an
    utterance. *)
Theorem messages_spoken_once (es : list event) :
  spoken (run es initial) = addMessages es.
Proof. rewrite spoken_run. reflexivity. Qed.

Lemma ids_filter (p : notification -> bool) (l : list notification) :
  NoDup (map id l) -> NoDup (map id (filter p l)).
Proof.
  induction l as [| n l IH]; intros N; [constructor |].
  cbn in N. inversion N as [| x xs Hx Hxs]; subst. cbn [filter].
  destruct (p n); [| exact (IH Hxs)].
  cbn. constructor; [| exact (IH Hxs)].
  intros Hin. apply Hx. apply in_map_iff in Hin. destruct Hin as (m & Em & Hm).
  apply filter_In in Hm. apply in_map_iff. exists m. tauto.
Qed.

Lemma ids_distinct_run (es : list event) :
  forall a,
    NoDup (map id (notifications a)) ->
    (forall n t, In n (notifications a) -> In t (addTimes es) -> (id n < t)%Z) ->
    StronglySorted Z.lt (addTimes es) ->
    NoDup (map id (notifications (run es a))).
Proof.
  induction es as [| e es IH]; intros a N Lt S; cbn [run]; [exact N |].
  destruct e as [now message type | k]; cbn [step addTimes] in *.
  - inversion S as [| x xs Sxs Hall]; subst. apply IH; [| | exact Sxs].
    + cbn [addNotification notifications]. rewrite map_app. cbn [map id].
      apply NoDup_app; [exact N | constructor; [intros [] | constructor] |].
      intros x Hx [E | []]. subst x. apply in_map_iff in Hx.
      destruct Hx as (n & En & Hn). specialize (Lt n now Hn (or_introl eq_refl)). lia.
    + intros n t Hn Ht. cbn [addNotification notifications] in Hn.
      apply in_app_or in Hn. destruct Hn as [Hn | [Hn | []]].
      * apply (Lt n t Hn). right. exact Ht.
      * subst n. cbn [id]. rewrite Forall_forall in Hall. exact (Hall t Ht).
  - apply IH; [| | exact S].
    + unfold timeoutFires. destruct (nth_error (timeouts a) k) as [[due nid] |]; [| exact N].
      cbn [notifications]. apply ids_filter, N.
    + intros n t Hn Ht. apply (Lt n t); [| exact Ht].
      unfold timeoutFires in Hn. destruct (nth_error (timeouts a) k) as [[due nid] |];
        [| exact Hn].
      cbn [notifications] in Hn. apply filter_In in Hn. tauto.
Qed.

Lemma filter_out_one (nid : Z) (pre post : list notification) (n : notification) :
  id n = nid -> NoDup (map id (pre ++ n :: post)) ->
  filter (fun m => negb (id m =? nid)%Z) (pre ++ n :: post) = (pre ++ post)%list.
Proof.
  intros E N. rewrite map_app in N. cbn [map] in N.
  assert (K : forall l, (forall m, In m l -> id m <> nid) ->
                        filter (fun m => negb (id m =? nid)%Z) l = l).
  { induction l as [| m l IH]; intros Hl; [reflexivity |]. cbn [filter].
    assert (id m <> nid) by (apply Hl; left; reflexivity).
    destruct (Z.eqb_spec (id m) nid); [contradiction |]. cbn [negb].
    rewrite IH; [reflexivity |]. intros x Hx. apply Hl. right. exact Hx. }
  rewrite filter_app. cbn [filter]. rewrite E, Z.eqb_refl. cbn [negb].
  rewrite !K; [reflexivity | |].
  - intros m Hm Em. apply NoDup_remove_2 in N. apply N. apply in_or_app. right.
    rewrite E, <- Em. apply in_map, Hm.
  - intros m Hm Em. apply NoDup_remove_2 in N. apply N. apply in_or_app. left.
    rewrite E, <- Em. apply in_map, Hm.
Qed.

(** X22. When the clock readings of the calls of [addNotification]
    strictly increase, the ids on screen are pairwise different, and a
    timeout that comes due removes its own notification and nothing
    else: the others stay, in their order. *)
Theorem timeout_removes_own_entry (es : list event) (k : nat) (due : Z)
    (pre post : list notification) (n : notification) :
  StronglySorted Z.lt (addTimes es) ->
  nth_error (timeouts (run es initial)) k = Some (due, id n) ->
  notifications (run es initial) = (pre ++ n :: post)%list ->
  NoDup (map id (notifications (run es initial)))
  /\ notifications (timeoutFires k (run es initial)) = (pre ++ post)%list.
Proof.
  intros S T E.
  assert (N : NoDup (map id (notifications (run es initial)))).
  { apply ids_distinct_run; [constructor | intros n0 t [] | exact S]. }
  split; [exact N |].
  unfold timeoutFires. rewrite T. cbn [notifications]. rewrite E in *.
  apply filter_out_one; [reflexivity | exact N].
Qed.

Lemma timeout_removes_own_entry_witness :
  notifications
    (timeoutFires 0
       (run [Add 1000 "Camera started" "success"; Add 1400 "Person removed" "success"] initial))
  = [{| id := 1400; message := "Person removed"; type := "success" |}].
Proof.
  exact (proj2 (timeout_removes_own_entry
                  [Add 1000 "Camera started" "success"; Add 1400 "Person removed" "success"]
                  0 6000 []
                  [{| id := 1400; message := "Person removed"; type := "success" |}]
                  {| id := 1000; message := "Camera started"; type := "success" |}
                  ltac:(repeat constructor) eq_refl eq_refl)).
Defined.

End NotifyTraceProps.

(* ------------------------------------------------------------------ *)
(** ** The model calls of the detection loop *)

Module DetectionExtra.
Import Detection DetectionTicks.

Section Loop.

Variable comp : component.

Lemma wellNumbered_detectFaces (l : loop) : wellNumbered l -> wellNumbered (detectFaces comp l).
Proof.
  intros (N & B). unfold detectFaces.
  destruct (negb (videoRef comp) || negb (modelsLoaded comp) || negb (canvasRef comp))%bool;
    [split; assumption |].
  unfold wellNumbered. cbn. split.
  - rewrite <- app_assoc. cbn [app].
    apply (Permutation_NoDup (Permutation_middle (pending l) (applied l) (ticks l))).
    constructor; [| exact N]. intros Hin. specialize (B _ Hin). lia.
  - intros k Hk. rewrite <- app_assoc in Hk. cbn [app] in Hk.
    apply in_app_or in Hk. destruct Hk as [Hk | [Hk | Hk]].
    + specialize (B k (in_or_app _ _ _ (or_introl Hk))). lia.
    + lia.
    + specialize (B k (in_or_app _ _ _ (or_intror Hk))). lia.
Qed.

Lemma wellNumbered_modelAnswers (k : nat) (fulfilled : bool) (l : loop) :
  wellNumbered l -> wellNumbered (modelAnswers k fulfilled l).
Proof.
  intros (N & B). unfold modelAnswers.
  destruct (existsb (Nat.eqb k) (pending l)) eqn:X; [| split; assumption].
  apply existsb_exists in X. destruct X as (k' & Hk & E). apply Nat.eqb_eq in E. subst k'.
  assert (Sub : forall j, In j (filter (fun j => negb (Nat.eqb j k)) (pending l)) ->
                          In j (pending l) /\ j <> k).
  { intros j Hj. apply filter_In in Hj. destruct Hj as (Hj & Hne).
    apply negb_true_iff, Nat.eqb_neq in Hne. auto. }
  assert (Nf : NoDup (filter (fun j => negb (Nat.eqb j k)) (pending l) ++ applied l)).
  { apply NoDup_app.
    - apply NoDup_filter. exact (NoDup_app_remove_r _ _ N).
    - exact (NoDup_app_remove_l _ _ N).
    - intros j Hj Ha. destruct (Sub j Hj) as (Hp & _).
      revert Hp Ha. clear -N. revert j. induction (pending l) as [| p ps IH]; intros j Hp Ha;
        [destruct Hp |].
      cbn in N. inversion N as [| x xs Hx Hxs]; subst. destruct Hp as [Hp | Hp].
      + subst p. apply Hx. apply in_or_app. right. exact Ha.
      + exact (IH Hxs j Hp Ha). }
  unfold wellNumbered. cbn. split.
  - destruct fulfilled; [| exact Nf].
    rewrite app_assoc. apply NoDup_app; [exact Nf | constructor; [intros [] | constructor] |].
    intros j Hj [E | []]. subst j. apply in_app_or in Hj. destruct Hj as [Hj | Hj].
    + destruct (Sub k Hj) as (_ & Hne). contradiction.
    + revert Hk Hj. clear -N. induction (pending l) as [| p ps IH]; intros Hk Hj;
        [destruct Hk |].
      cbn in N. inversion N as [| x xs Hx Hxs]; subst. destruct Hk as [Hk | Hk].
      * subst p. apply Hx. apply in_or_app. right. exact Hj.
      * exact (IH Hxs Hk Hj).
  - intros j Hj. apply B. apply in_app_or in Hj. destruct Hj as [Hj | Hj].
    + apply in_or_app. left. exact (proj1 (Sub j Hj)).
    + destruct fulfilled; [| apply in_or_app; right; exact Hj].
      apply in_app_or in Hj. destruct Hj as [Hj | [Hj | []]].
      * apply in_or_app. right. exact Hj.
      * subst j. apply in_or_app. left. exact Hk.
Qed.

Lemma wellNumbered_step (l : loop) (e : event) : wellNumbered l -> wellNumbered (step comp l e).
Proof.
  intros W. destruct e as [| | | i | k f]; cbn [step].
  - unfold startDetection.
    match goal with |- context [detectFaces comp ?x] =>
      assert (W1 : wellNumbered (detectFaces comp x))
        by (apply wellNumbered_detectFaces; exact W) end.
    exact W1.
  - exact W.
  - unfold stopWebcam. destruct (streamRef l); exact W.
  - unfold intervalFires. destruct (existsb (Nat.eqb i) (intervals l));
      [apply wellNumbered_detectFaces |]; exact W.
  - apply wellNumbered_modelAnswers, W.
Qed.

(** X23. In every run of the detection loop from a camera that was
    just started, every model call is answered at most once: no tick
    is pending twice or applied twice, none is both pending and
    applied, and every pending or applied tick is one that was
    started. *)
Theorem model_calls_answered_once (es : list event) :
  wellNumbered (run comp cameraOn es).
Proof.
  unfold run.
  assert (G : forall l, wellNumbered l -> wellNumbered (fold_left (step comp) es l)).
  { induction es as [| e es IH]; intros l W; cbn [fold_left]; [exact W |].
    apply IH, wellNumbered_step, W. }
  apply G. split; [constructor | intros k []].
Qed.

End Loop.

End DetectionExtra.

(* ------------------------------------------------------------------ *)
(** ** The score along the duration *)

Module ScorerExtra.
Import Scorer.

(** X24. The safety score never grows with the duration: of two
    routes, the one whose first leg lasts longer scores at most as
    much as the other, and both scores lie between 50 and 95. *)
Theorem calculateSafetyScore_monotone (r1 r2 : route) (l1 l2 : leg) (rest1 rest2 : list leg) :
  legs r1 = l1 :: rest1 -> legs r2 = l2 :: rest2 ->
  duration_value l1 <= duration_value l2 ->
  exists s1 s2,
    calculateSafetyScore r1 = Some s1 /\ calculateSafetyScore r2 = Some s2
    /\ s2 <= s1 /\ 50 <= s2 /\ s1 <= 95.
Proof.
  intros E1 E2 D. unfold calculateSafetyScore. rewrite E1, E2. cbn [nth_error].
  eexists _, _. split; [reflexivity |]. split; [reflexivity |].
  rewrite !ScorerProps.rawScore_cases.
  destruct (Z.ltb_spec (duration_value l1) 900); destruct (Z.ltb_spec (duration_value l2) 900);
    destruct (Z.ltb_spec 2700 (duration_value l1));
    destruct (Z.ltb_spec 2700 (duration_value l2)); lia.
Qed.

Lemma calculateSafetyScore_monotone_witness :
  exists s1 s2,
    calculateSafetyScore {| legs := [{| duration_value := 600 |}] |} = Some s1
    /\ calculateSafetyScore {| legs := [{| duration_value := 3600 |}] |} = Some s2
    /\ s2 <= s1 /\ 50 <= s2 /\ s1 <= 95.
Proof.
  apply (calculateSafetyScore_monotone
           {| legs := [{| duration_value := 600 |}] |} {| legs := [{| duration_value := 3600 |}] |}
           {| duration_value := 600 |} {| duration_value := 3600 |} [] []);
    [reflexivity | reflexivity | cbn; lia].
Defined.

End ScorerExtra.
